(** * app.py: retrieval and chat orchestration of the chatbot backend

    A shallow embedding of [src/app.py].  Python values are modelled as
    follows.
    - [str] is [string]; a character is a code point below 256 (Latin-1).
    - [int] is [Z]; [len], [count] and slice bounds are integers.
    - a [set] of strings is a [gset string].
    - a [dict] read with [.get] is an association list, first binding wins.
    - the SQLite table [rag_chunks] is the list of its rows in rowid order.
    - what the process receives from outside (uuid4 draws, HTTP replies) is
      an argument; what it does to the outside (queries, HTTP calls) is
      recorded in a trace. *)

From Stdlib Require Import ZArith Lia.
From Stdlib Require Import Strings.String Strings.Ascii Numbers.DecimalString.
From stdpp Require Import base decidable option list gmap strings sorting.

Local Open Scope string_scope.
Local Open Scope list_scope.
Local Open Scope Z_scope.

(** ** Python built-ins used by the program *)

Module Py.

(** [len(s)] *)
Definition len (s : string) : Z := Z.of_nat (String.length s).

(** [bool(s)] for a [str]: the empty string is falsy. *)
Definition nonempty (s : string) : bool :=
  match s with EmptyString => false | String _ _ => true end.

(** [c.isspace()] on code points below 256: TAB..CR, FS..US, SPACE,
    NEL (0x85) and NBSP (0xA0). *)
Definition isspace (c : ascii) : bool :=
  let n := Z.of_nat (nat_of_ascii c) in
  ((9 <=? n) && (n <=? 13)) || ((28 <=? n) && (n <=? 32))
  || (n =? 133) || (n =? 160).

Fixpoint lstrip (s : string) : string :=
  match s with
  | EmptyString => EmptyString
  | String c s' => if isspace c then lstrip s' else s
  end.

Fixpoint rstrip (s : string) : string :=
  match s with
  | EmptyString => EmptyString
  | String c s' =>
      match rstrip s' with
      | EmptyString => if isspace c then EmptyString else String c EmptyString
      | r => String c r
      end
  end.

(** [s.strip()] *)
Definition strip (s : string) : string := rstrip (lstrip s).

(** A slice bound [i] of a sequence of length [n], as CPython's
    [PySlice_AdjustIndices] clamps it (step 1). *)
Definition adjust (n i : Z) : Z :=
  if i <? 0 then Z.max 0 (i + n) else Z.min i n.

(** [s[lo:hi]] *)
Definition slice (s : string) (lo hi : Z) : string :=
  let n := len s in
  let a := adjust n lo in
  let b := adjust n hi in
  String.substring (Z.to_nat a) (Z.to_nat (b - a)) s.

(** [l[lo:hi]] on a list; [None] is an omitted bound. *)
Definition list_slice {A} (l : list A) (lo hi : option Z) : list A :=
  let n := Z.of_nat (length l) in
  let a := match lo with Some i => adjust n i | None => 0 end in
  let b := match hi with Some i => adjust n i | None => n end in
  take (Z.to_nat (b - a)) (drop (Z.to_nat a) l).

(** [s.count(c)] for a one-character needle. *)
Fixpoint count (c : ascii) (s : string) : Z :=
  match s with
  | EmptyString => 0
  | String d s' => (if Ascii.eqb c d then 1 else 0) + count c s'
  end.

(** [str(n)] for an [int]. *)
Definition str_of_int (n : Z) : string :=
  NilEmpty.string_of_int (Z.to_int n).

(** [s * n] *)
Fixpoint repeat_str (s : string) (n : nat) : string :=
  match n with
  | O => ""
  | S n' => s +:+ repeat_str s n'
  end.

(** [sep.join(parts)] *)
Fixpoint join (sep : string) (parts : list string) : string :=
  match parts with
  | [] => ""
  | [p] => p
  | p :: ps => p +:+ sep +:+ join sep ps
  end.

End Py.

(** ** Configuration read from the environment at import time *)

Record config := Config {
  OLLAMA_MODEL : string;
  CHAT_HISTORY_MESSAGES : Z;
  RAG_TOP_K : Z;
  RAG_CHUNK_SIZE : Z;
  RAG_CHUNK_OVERLAP : Z;
  RAG_AUTO_INGEST_MIN_CHARS : Z;
  WEB_LOOKUP_TOP_K : Z;
  GOOGLE_API_KEY : string;
  GOOGLE_CSE_ID : string
}.

(** The defaults of the [os.getenv] calls. *)
Definition default_config : config := {|
  OLLAMA_MODEL := "llama3.2:1b";
  CHAT_HISTORY_MESSAGES := 6;
  RAG_TOP_K := 3;
  RAG_CHUNK_SIZE := 700;
  RAG_CHUNK_OVERLAP := 120;
  RAG_AUTO_INGEST_MIN_CHARS := 600;
  WEB_LOOKUP_TOP_K := 5;
  GOOGLE_API_KEY := "";
  GOOGLE_CSE_ID := ""
|}.

(** ** Chunker *)

Module Chunker.
Import Py.

(** The body of [for start in range(0, len(text), step)], from the offset
    [start] on.  [range] is exhausted when [start] reaches [len(text)];
    [fuel] bounds the number of iterations and [None] means it ran out. *)
Fixpoint chunk_loop (fuel : nat) (text : string) (chunk_size step : Z)
    (start : Z) (chunks : list string) : option (list string) :=
  if len text <=? start then Some chunks
  else
    match fuel with
    | O => None
    | S fuel' =>
        let part := strip (slice text start (start + chunk_size)) in
        let chunks' := if nonempty part then chunks ++ [part] else chunks in
        if len text <=? start + chunk_size then Some chunks'
        else chunk_loop fuel' text chunk_size step (start + step) chunks'
    end.

Definition chunk_text_fuel (fuel : nat) (text : string)
    (chunk_size overlap : Z) : option (list string) :=
  if nonempty text then
    let step := Z.max 1 (chunk_size - overlap) in
    chunk_loop fuel text chunk_size step 0 []
  else Some [].

(** [chunk_text]: one iteration per character is always enough
    (see [chunk_text_fuel_enough]). *)
Definition chunk_text (text : string) (chunk_size overlap : Z) : list string :=
  default [] (chunk_text_fuel (String.length text) text chunk_size overlap).

(** The windowing algorithm in the words of the specification: kept
    windows from the offset [start] on. *)
Definition window (text : string) (start chunk_size : nat) : string :=
  String.substring start chunk_size text.

Definition keep (w : string) : list string :=
  if decide (w = "") then [] else [w].

Inductive windows (text : string) (chunk_size overlap : nat) :
    nat -> list string -> Prop :=
| windows_stop start :
    (String.length text <= start + chunk_size)%nat ->
    windows text chunk_size overlap start
      (keep (strip (window text start chunk_size)))
| windows_advance start rest :
    (start + chunk_size < String.length text)%nat ->
    windows text chunk_size overlap
      (start + Nat.max 1 (chunk_size - overlap)) rest ->
    windows text chunk_size overlap start
      (keep (strip (window text start chunk_size)) ++ rest).

End Chunker.

(** ** Tokenizer *)

Module Tokenizer.

(** [c.lower()] on code points below 256: A-Z, and the accented capitals
    0xC0-0xDE other than the multiplication sign 0xD7. *)
Definition lower_char (c : ascii) : ascii :=
  let n := Z.of_nat (nat_of_ascii c) in
  if ((65 <=? n) && (n <=? 90))
     || ((192 <=? n) && (n <=? 222) && negb (n =? 215))
  then ascii_of_nat (nat_of_ascii c + 32) else c.

Fixpoint lower (s : string) : string :=
  match s with
  | EmptyString => EmptyString
  | String c s' => String (lower_char c) (lower s')
  end.

(** The character class [[a-zA-Z0-9_]]. *)
Definition is_word (c : ascii) : bool :=
  let n := Z.of_nat (nat_of_ascii c) in
  ((97 <=? n) && (n <=? 122)) || ((65 <=? n) && (n <=? 90))
  || ((48 <=? n) && (n <=? 57)) || (n =? 95).

(** A finished run of word characters is a match of [{3,}] when it has at
    least three of them. *)
Definition flush (run : string) : list string :=
  if (3 <=? String.length run)%nat then [run] else [].

(** [re.findall(r"[a-zA-Z0-9_]{3,}", s)]: the greedy quantifier takes a whole
    run of word characters, and a run too short to match is skipped one
    character at a time; [run] is the run being read. *)
Fixpoint findall_words (run : string) (s : string) : list string :=
  match s with
  | EmptyString => flush run
  | String c s' =>
      if is_word c then findall_words (run +:+ String c EmptyString) s'
      else flush run ++ findall_words EmptyString s'
  end.

Definition tokenize (text : string) : gset string :=
  list_to_set (findall_words "" (lower text)).

(** [sorted(tokens)]: the elements of the set in increasing order. *)
Definition sorted (tokens : gset string) : list string :=
  merge_sort String.le (elements tokens).

End Tokenizer.

(** ** JSON values, as [json.loads] and [request.get_json] build them *)

(** Numbers are the integers; an object is its list of bindings. *)
#[warnings="-register-all"] Inductive json :=
| JNull
| JBool (b : bool)
| JNum (n : Z)
| JStr (s : string)
| JArr (items : list json)
| JObj (fields : list (string * json)).

(** [bool(v)] *)
Definition truthy (v : json) : bool :=
  match v with
  | JNull => false
  | JBool b => b
  | JNum n => negb (n =? 0)
  | JStr s => Py.nonempty s
  | JArr items => match items with [] => false | _ => true end
  | JObj fields => match fields with [] => false | _ => true end
  end.

(** [d.get(key)] on the bindings of a [dict]; [None] when absent. *)
Fixpoint dict_get {V} (d : list (string * V)) (key : string) : option V :=
  match d with
  | [] => None
  | (k, v) :: d' => if String.eqb k key then Some v else dict_get d' key
  end.

(** [d.get(key, dflt)] *)
Definition get_default {V} (d : list (string * V)) (key : string) (dflt : V)
    : V :=
  default dflt (dict_get d key).

(** ** Exceptions, effects and the world outside the process *)

Inductive exn :=
| IntegrityError                 (* sqlite3: UNIQUE constraint failed *)
| AttributeError                 (* a method looked up on the wrong type *)
| TypeError
| JSONDecodeError
| UnicodeDecodeError             (* bytes that are not text in the encoding *)
| RequestTimeout                 (* requests.exceptions.Timeout *)
| RequestException (msg : string) (* any other requests.RequestException *)
| PlainException (msg : string).  (* [raise Exception(msg)] *)

Inductive result (A : Type) :=
| Ok (a : A)
| Raise (e : exn).
Arguments Ok {A} a.
Arguments Raise {A} e.

(** A row of the table [rag_chunks]; [tokens] is the JSON array stored in
    the column of that name. *)
Record chunk_row := ChunkRow {
  id : string;
  filename : string;
  chunk_index : Z;
  content : string;
  tokens : list string
}.

(** A message of the chat protocol, [{"role": ..., "content": ...}]. *)
Record message := Message {
  role : string;
  msg_content : json
}.

(** What the process does to its collaborators. *)
Inductive event :=
| DbSelectChunks                       (* SELECT ... FROM rag_chunks *)
| DbCountChunks                        (* SELECT COUNT( * ) *)
| DbCountDocuments                     (* SELECT COUNT(DISTINCT filename) *)
| DbSelectFilenames                    (* SELECT DISTINCT filename ... *)
| DbInsert (r : chunk_row)
| DbCommit
| DbRollback
| GoogleGet (q : json) (num : Z)
| OllamaPost (model : string) (messages : list message) (stream : bool).

(** The mutable world: the table, the uuid4 draws still to come and the
    calls made so far, latest last. *)
Record world := World {
  db : list chunk_row;
  uuid_feed : nat -> string;
  uuid_next : nat;
  trace : list event
}.

Definition M (A : Type) : Type := world -> result A * world.

Definition ret {A} (a : A) : M A := fun w => (Ok a, w).
Definition raise {A} (e : exn) : M A := fun w => (Raise e, w).
Definition bind {A B} (c : M A) (k : A -> M B) : M B :=
  fun w => match c w with
           | (Ok a, w') => k a w'
           | (Raise e, w') => (Raise e, w')
           end.

Notation "x <- c ;; k" := (bind c (fun x => k))
  (at level 100, c at next level, right associativity).
Notation "c ;;; k" := (bind c (fun _ => k))
  (at level 100, right associativity).

Definition emit (e : event) : M unit :=
  fun w => (Ok tt, World (db w) (uuid_feed w) (uuid_next w) (trace w ++ [e])).

Definition get_db : M (list chunk_row) := fun w => (Ok (db w), w).

Definition set_db (rows : list chunk_row) : M unit :=
  fun w => (Ok tt, World rows (uuid_feed w) (uuid_next w) (trace w)).

(** [str(uuid.uuid4())] *)
Definition uuid4 : M string :=
  fun w => (Ok (uuid_feed w (uuid_next w)),
            World (db w) (uuid_feed w) (S (uuid_next w)) (trace w)).

(** ** Document store *)

Module Store.
Import Py Tokenizer Chunker.

(** [cursor.execute("INSERT INTO rag_chunks ...")]: [id] is the primary key. *)
Definition insert_row (r : chunk_row) : M unit :=
  rows <- get_db ;;
  if decide (id r ∈ map id rows) then raise IntegrityError
  else emit (DbInsert r) ;;; set_db (rows ++ [r]).

(** [with get_db_connection() as conn: body]: the connection commits when
    the body returns and rolls back when it raises. *)
Definition with_connection {A} (body : M A) : M A :=
  fun w => match body w with
           | (Ok a, w') => (emit DbCommit ;;; ret a) w'
           | (Raise e, w') =>
               (emit DbRollback ;;; set_db (db w) ;;; raise e) w'
           end.

Definition rag_counts : M (Z * Z) :=
  with_connection (
    rows <- get_db ;;
    emit DbCountChunks ;;;
    let chunk_count := Z.of_nat (length rows) in
    emit DbCountDocuments ;;;
    let document_count :=
      Z.of_nat (length (remove_dups (map filename rows))) in
    ret (document_count, chunk_count)).

Definition rag_filenames : M (list string) :=
  with_connection (
    rows <- get_db ;;
    emit DbSelectFilenames ;;;
    ret (merge_sort String.le (remove_dups (map filename rows)))).

(** [for index, part in enumerate(chunks): cursor.execute(INSERT ...)] *)
Fixpoint insert_chunks (fname : string) (index : Z) (chunks : list string)
    : M unit :=
  match chunks with
  | [] => ret tt
  | part :: chunks' =>
      uid <- uuid4 ;;
      insert_row (ChunkRow uid fname index part (sorted (tokenize part))) ;;;
      insert_chunks fname (index + 1) chunks'
  end.

Definition add_document_chunks (cfg : config) (fname content : string)
    : M Z :=
  let chunks := chunk_text content (RAG_CHUNK_SIZE cfg) (RAG_CHUNK_OVERLAP cfg) in
  with_connection (insert_chunks fname 0 chunks ;;; emit DbCommit) ;;;
  ret (Z.of_nat (length chunks)).

End Store.

(** ** Retriever *)

Module Retriever.
Import Py Tokenizer Store.

(** An entry of the result, [{"filename": ..., "index": ..., "content": ...}]. *)
Record context_match := ContextMatch {
  match_filename : string;
  match_index : Z;
  match_content : string
}.

(** [len(query_tokens.intersection(set(json.loads(tokens_json))))] *)
Definition overlap (query_tokens : gset string) (r : chunk_row) : Z :=
  Z.of_nat (size (query_tokens ∩ list_to_set (tokens r))).

(** The loop filling [ranked]. *)
Fixpoint rank (query_tokens : gset string) (rows : list chunk_row)
    : list (Z * context_match) :=
  match rows with
  | [] => []
  | r :: rows' =>
      let ov := overlap query_tokens r in
      (if 0 <? ov
       then [(ov, ContextMatch (filename r) (chunk_index r) (content r))]
       else [])
      ++ rank query_tokens rows'
  end.

(** [list.sort(key=lambda item: item[0], reverse=True)] is stable: an item
    goes before the first later item of a smaller or equal key. *)
Fixpoint insert_desc {A} (x : Z * A) (l : list (Z * A)) : list (Z * A) :=
  match l with
  | [] => [x]
  | y :: l' => if fst y <=? fst x then x :: l else y :: insert_desc x l'
  end.

Definition sort_desc {A} (l : list (Z * A)) : list (Z * A) :=
  foldr insert_desc [] l.

(** The scored prefix [ranked[:top_k]] of the sorted list. *)
Definition top_ranked (query_tokens : gset string) (rows : list chunk_row)
    (top_k : Z) : list (Z * context_match) :=
  list_slice (sort_desc (rank query_tokens rows)) None (Some top_k).

Definition retrieve_context (query : string) (top_k : Z)
    : M (list context_match) :=
  let query_tokens := tokenize query in
  if decide (query_tokens = ∅) then ret []
  else
    rows <- with_connection (emit DbSelectChunks ;;; get_db) ;;
    match rows with
    | [] => ret []
    | _ => ret (map snd (top_ranked query_tokens rows top_k))
    end.

End Retriever.
(** [try: body except ...: handler]; a handler that does not match re-raises. *)
Definition try_except {A} (body : M A) (handler : exn -> M A) : M A :=
  fun w => match body w with
           | (Ok a, w') => (Ok a, w')
           | (Raise e, w') => handler e w'
           end.

(** [isinstance(e, requests.RequestException)] *)
Definition is_request_exception (e : exn) : bool :=
  match e with
  | RequestTimeout | RequestException _ => true
  | _ => false
  end.

(** The reply of the search provider to the one request of a lookup: the
    call raises, or it returns a response whose body lists [items]. A
    provider item is an object with text fields. *)
Inductive google_reply :=
| GoogleRaises (e : exn)
| GoogleResponse (status_code : Z) (text : string)
    (items : list (list (string * string))).

(** A line of a streamed body, as [json.loads] treats it.  The response
    of the model service declares no charset, so [iter_lines] hands the
    lines over as bytes, and [json.loads] decodes them before it parses
    them: bytes that are not UTF-8 raise UnicodeDecodeError, which is not a
    JSONDecodeError. *)
Inductive stream_line :=
| EmptyLine
| Garbage (text : string)        (* [json.loads] raises JSONDecodeError *)
| Undecodable                    (* [json.loads] raises UnicodeDecodeError *)
| JsonLine (parsed : json).

(** The reply of the model service: the call raises, or it returns a
    response.  [body] is [response.json()], [None] when the body does not
    parse; [lines] is what [iter_lines] yields, and [broken] the exception it
    raises after them, if any. *)
Inductive ollama_reply :=
| OllamaRaises (e : exn)
| OllamaResponse (status_code : Z) (text : string) (body : option json)
    (lines : list stream_line) (broken : option exn).

Record outside := Outside {
  google : google_reply;
  ollama : ollama_reply
}.

(** ** Auto-ingest heuristic *)

Module AutoIngest.
Import Py Store.

Definition newline : ascii := ascii_of_nat 10.
Definition question_mark : ascii := ascii_of_nat 63.

Definition should_auto_ingest (cfg : config) (message : json) : bool :=
  match message with
  | JStr m =>
      let text := strip m in
      if nonempty text then
        let line_count := count newline text + 1 in
        let question_marks := count question_mark text in
        let looks_long :=
          (RAG_AUTO_INGEST_MIN_CHARS cfg <=? len text) || (12 <=? line_count) in
        let looks_like_question := 2 <=? question_marks in
        looks_long && negb looks_like_question
      else false
  | _ => false
  end.

Definition ingest_pasted_document (cfg : config) (message : string)
    : M (string * Z) :=
  counts <- rag_counts ;;
  let document_count := fst counts in
  let fname := "chat-paste-" +:+ str_of_int (document_count + 1) +:+ ".txt" in
  chunks_added <- add_document_chunks cfg fname message ;;
  ret (fname, chunks_added).

(** The acknowledgment text of both chat endpoints. *)
Definition ingest_ack (fname : string) (chunks_added : Z) : string :=
  "Document saved from chat as " +:+ fname +:+ " with "
  +:+ str_of_int chunks_added +:+ " chunks. "
  +:+ "Now ask your question and I will use it in RAG mode.".

End AutoIngest.

(** The heuristic in the words of the specification, read on the message
    as it is given. *)
Module AutoIngestSpec.
Import Py AutoIngest.

Definition line_count (m : string) : Z := count newline m + 1.

Definition is_long (cfg : config) (m : string) : Prop :=
  RAG_AUTO_INGEST_MIN_CHARS cfg <= len m \/ 12 <= line_count m.

Definition looks_like_question (m : string) : Prop :=
  2 <= count question_mark m.

Definition triggers (cfg : config) (m : string) : Prop :=
  is_long cfg m /\ ~ looks_like_question m.

End AutoIngestSpec.

(** ** Web lookup adapter *)

Module WebLookup.
Import Py.

(** A normalized result, [{"title": ..., "snippet": ..., "link": ...}]. *)
Record web_result := WebResult {
  title : string;
  snippet : string;
  link : string
}.

Definition web_lookup_configured (cfg : config) : bool :=
  nonempty (GOOGLE_API_KEY cfg) && nonempty (GOOGLE_CSE_ID cfg).

(** [response.ok]: [raise_for_status] raises for 4xx and 5xx codes. *)
Definition response_ok (status_code : Z) : bool :=
  negb ((400 <=? status_code) && (status_code <? 600)).

(** The loop over [items]. *)
Fixpoint normalize (items : list (list (string * string))) : list web_result :=
  match items with
  | [] => []
  | item :: items' =>
      let t := get_default item "title" "" in
      let s := get_default item "snippet" "" in
      let l := get_default item "link" "" in
      (if nonempty t || nonempty s || nonempty l then [WebResult t s l] else [])
      ++ normalize items'
  end.

(** [HTTP_SESSION.get(".../customsearch/v1", params=...)] *)
Definition google_get (g : google_reply) (q : json) (num : Z)
    : M (Z * string * list (list (string * string))) :=
  emit (GoogleGet q num) ;;;
  match g with
  | GoogleRaises e => raise e
  | GoogleResponse status_code text items => ret (status_code, text, items)
  end.

Definition fetch_google_results (cfg : config) (g : google_reply)
    (query : json) (top_k : Z) : M (list web_result * option string) :=
  if negb (web_lookup_configured cfg) then ret ([], Some "not_configured")
  else
    try_except (
      response <- google_get g query (Z.max 1 (Z.min top_k 10)) ;;
      let '(status_code, _, items) := response in
      if negb (response_ok status_code) then ret ([], Some "lookup_failed")
      else ret (normalize items, None))
    (fun e =>
       if is_request_exception e then ret ([], Some "lookup_failed")
       else raise e).

End WebLookup.

(** ** Prompt builder *)

Module PromptBuilder.
Import Py Retriever WebLookup.

Definition nl : string := String AutoIngest.newline EmptyString.

Definition SYSTEM_PROMPT : string :=
"You are a knowledgeable and helpful AI assistant. You can discuss any topic including:
- Technology, programming, and software development
- Science, mathematics, and engineering
- Business, finance, and economics
- Arts, literature, and culture
- History, geography, and current events
- Health, fitness, and wellness
- And much more

Provide clear, accurate, and helpful responses. Use examples when appropriate.
Be conversational and friendly. If you're not sure about something, say so.
Default to concise answers unless the user asks for deep detail.
Keep default answers under 120 words and use short bullet points when possible.".

(** [for index, result in enumerate(web_results, start=1)] *)
Fixpoint web_blocks (index : Z) (web_results : list web_result) : list string :=
  match web_results with
  | [] => []
  | r :: rest =>
      ("[web-" +:+ str_of_int index +:+ "] " +:+ title r +:+ nl
       +:+ "Snippet: " +:+ snippet r +:+ nl
       +:+ "URL: " +:+ link r)
      :: web_blocks (index + 1) rest
  end.

Definition context_block (m : context_match) : string :=
  "[" +:+ match_filename m +:+ "#" +:+ str_of_int (match_index m) +:+ "]"
  +:+ nl +:+ match_content m.

Definition build_system_prompt (cfg : config) (rag_enabled : bool)
    (user_message : json) (web_enabled : bool)
    (web_results : list web_result) : M string :=
  let prompt :=
    match web_enabled, web_results with
    | true, _ :: _ =>
        SYSTEM_PROMPT
        +:+ nl +:+ nl
        +:+ "WEB LOOKUP MODE: Use the following Google search snippets as fresh context. "
        +:+ "Prefer these sources for time-sensitive facts and mention URLs when useful."
        +:+ nl +:+ nl
        +:+ join (nl +:+ nl) (web_blocks 1 web_results)
    | _, _ => SYSTEM_PROMPT
    end in
  if negb rag_enabled then ret prompt
  else
    (* [tokenize] calls [text.lower()], which only a [str] has *)
    matches <- match user_message with
               | JStr q => retrieve_context q (RAG_TOP_K cfg)
               | _ => raise AttributeError
               end ;;
    match matches with
    | [] =>
        ret (prompt +:+ nl +:+ nl
             +:+ "RAG MODE: No matching document context found for this question.")
    | _ =>
        ret (prompt
             +:+ nl +:+ nl
             +:+ "RAG MODE: Use only the following document context when relevant. "
             +:+ "If context is insufficient, clearly say so."
             +:+ nl +:+ nl
             +:+ join (nl +:+ nl) (map context_block matches))
    end.

(** [role in ("user", "assistant")] *)
Definition valid_role (role : json) : option string :=
  match role with
  | JStr r =>
      if String.eqb r "user" || String.eqb r "assistant" then Some r else None
  | _ => None
  end.

(** The loop over [bounded_history]; [msg.get] needs a [dict]. *)
Fixpoint history_messages (bounded_history : list json)
    : result (list message) :=
  match bounded_history with
  | [] => Ok []
  | JObj msg :: rest =>
      let role := get_default msg "role" JNull in
      let content := get_default msg "content" (JStr "") in
      let kept :=
        match valid_role role with
        | Some r => if truthy content then [Message r content] else []
        | None => []
        end in
      match history_messages rest with
      | Ok ms => Ok (kept ++ ms)
      | Raise e => Raise e
      end
  | _ :: _ => Raise AttributeError
  end.

(** [conversation_history[-CHAT_HISTORY_MESSAGES:]] followed by the loop.
    A list is sliced; the slice of a string is a string, whose characters
    have no [get]; anything else cannot be sliced (a [dict] raises
    TypeError, or KeyError from Python 3.12 on, and both end alike). *)
Definition bounded_messages (cfg : config) (conversation_history : json)
    : result (list message) :=
  match conversation_history with
  | JArr turns =>
      history_messages
        (list_slice turns (Some (- CHAT_HISTORY_MESSAGES cfg)) None)
  | JStr s =>
      if nonempty (slice s (- CHAT_HISTORY_MESSAGES cfg) (len s))
      then Raise AttributeError else Ok []
  | _ => Raise TypeError
  end.

Definition build_messages (cfg : config) (user_message : json)
    (conversation_history : json) (rag_enabled web_enabled : bool)
    (web_results : list web_result) : M (list message) :=
  match conversation_history with
  | JArr _ | JStr _ =>
      prompt <- build_system_prompt cfg rag_enabled user_message
                  web_enabled web_results ;;
      match bounded_messages cfg conversation_history with
      | Ok history =>
          ret ([Message "system" (JStr prompt)] ++ history
               ++ [Message "user" user_message])
      | Raise e => raise e
      end
  | _ => raise TypeError
  end.

End PromptBuilder.

(** ** Chat orchestrator *)

Module Orchestrator.
Import Py Store AutoIngest WebLookup PromptBuilder.

Definition resolve_model (cfg : config) (selected_model : json) : string :=
  match selected_model with
  | JStr s => if nonempty (strip s) then strip s else OLLAMA_MODEL cfg
  | _ => OLLAMA_MODEL cfg
  end.

(** [key in d] *)
Definition has_key {V} (d : list (string * V)) (key : string) : bool :=
  match dict_get d key with Some _ => true | None => false end.

(** [HTTP_SESSION.post(f"{OLLAMA_URL}/api/chat", json=..., ...)] *)
Definition ollama_post (o : ollama_reply) (model : string)
    (messages : list message) (stream : bool)
    : M (Z * string * option json * list stream_line * option exn) :=
  emit (OllamaPost model messages stream) ;;;
  match o with
  | OllamaRaises e => raise e
  | OllamaResponse status_code text body lines broken =>
      ret (status_code, text, body, lines, broken)
  end.

Definition not_configured_response : json * Z :=
  (JObj [("success", JBool false);
         ("error", JStr "Web Mode is enabled but Google lookup is not configured. Set GOOGLE_API_KEY and GOOGLE_CSE_ID.")],
   400).

(** The fields both endpoints read from the request. *)
Record chat_request := ChatRequest {
  user_message : json;
  conversation_history : json;
  rag_enabled : bool;
  web_enabled : bool;
  selected_model : string
}.

Definition read_request (cfg : config) (data : list (string * json))
    : chat_request :=
  {| user_message := get_default data "message" JNull;
     conversation_history := get_default data "history" (JArr []);
     rag_enabled := truthy (get_default data "rag_enabled" (JBool false));
     web_enabled := truthy (get_default data "web_enabled" (JBool false));
     selected_model := resolve_model cfg (get_default data "model" JNull) |}.

(** [body.get("message", {}).get("content", "")] *)
Definition assistant_content (body : json) : result json :=
  match body with
  | JObj fields =>
      match get_default fields "message" (JObj []) with
      | JObj msg => Ok (get_default msg "content" (JStr ""))
      | _ => Raise AttributeError
      end
  | _ => Raise AttributeError
  end.

(** Lines 446-487 of [chat]: prompt assembly and the single-shot call. *)
Definition chat_dispatch (cfg : config) (out : outside) (req : chat_request)
    (web_results : list web_result) : M (json * Z) :=
  messages <- build_messages cfg (user_message req) (conversation_history req)
                (rag_enabled req) (web_enabled req) web_results ;;
  response <- ollama_post (ollama out) (selected_model req) messages false ;;
  let '(status_code, text, body, _, _) := response in
  if negb (status_code =? 200) then
    raise (PlainException ("Ollama API error: " +:+ text))
  else
    match body with
    | None => raise JSONDecodeError
    | Some b =>
        match assistant_content b with
        | Raise e => raise e
        | Ok assistant_message =>
            if negb (truthy assistant_message) then
              raise (PlainException "Ollama API returned an empty response")
            else
              match assistant_message with
              | JStr s =>
                  ret (JObj [("message", JStr (strip s));
                             ("success", JBool true);
                             ("model", JStr (selected_model req));
                             ("rag_enabled", JBool (rag_enabled req));
                             ("rag_ingested", JBool false);
                             ("web_enabled", JBool (web_enabled req))],
                       200)
              | _ => raise AttributeError
              end
        end
    end.

(** The web step shared by both endpoints: [Some] results to go on with,
    or [None] when the lookup reported [not_configured]. *)
Definition web_step (cfg : config) (out : outside) (req : chat_request)
    : M (option (list web_result)) :=
  if web_enabled req then
    looked <- fetch_google_results cfg (google out) (user_message req)
                (WEB_LOOKUP_TOP_K cfg) ;;
    match snd looked with
    | Some "not_configured" => ret None
    | _ => ret (Some (fst looked))
    end
  else ret (Some []).

(** The [try] block of [chat], for a request body that is a JSON object,
    given by its bindings [data].  What the same lines do with a body that
    is another JSON value is in [RequestBody]. *)
Definition chat_body (cfg : config) (out : outside)
    (data : list (string * json)) : M (json * Z) :=
  if negb (truthy (JObj data)) || negb (has_key data "message") then
    ret (JObj [("error", JStr "No message provided")], 400)
  else
    let req := read_request cfg data in
    web <- web_step cfg out req ;;
    match web with
    | None => ret not_configured_response
    | Some web_results =>
        if rag_enabled req && should_auto_ingest cfg (user_message req) then
          match user_message req with
          | JStr m =>
              saved <- ingest_pasted_document cfg m ;;
              counts <- rag_counts ;;
              ret (JObj [("success", JBool true);
                         ("message", JStr (ingest_ack (fst saved) (snd saved)));
                         ("model", JStr (selected_model req));
                         ("rag_enabled", JBool true);
                         ("rag_ingested", JBool true);
                         ("rag_total_chunks", JNum (snd counts));
                         ("web_enabled", JBool (web_enabled req))],
                   200)
          | _ => raise TypeError
          end
        else chat_dispatch cfg out req web_results
    end.

(** The [except] clauses of [chat]. *)
Definition chat_errors (e : exn) : M (json * Z) :=
  match e with
  | RequestTimeout =>
      ret (JObj [("error", JStr "Request timed out. The model might be loading. Please try again.");
                 ("success", JBool false)],
           504)
  | _ =>
      ret (JObj [("error", JStr "An error occurred processing your request");
                 ("success", JBool false)],
           500)
  end.

(** [POST /api/chat] with the request body the object [data]. *)
Definition chat (cfg : config) (out : outside) (data : list (string * json))
    : M (json * Z) :=
  try_except (chat_body cfg out data) chat_errors.

(** The records of the streamed response. *)
Inductive error_details :=
| ResponseText (text : string)   (* [response.text] *)
| ExceptionText (e : exn).       (* [str(exc)] *)

Inductive stream_event :=
| TokenEvent (content : json)
| DoneEvent (model : string) (rag_enabled rag_ingested web_enabled : bool)
| ErrorEvent (error : string) (details : option error_details).

(** What [POST /api/chat/stream] returns: a JSON response, or the events
    its generator yields until it is exhausted. *)
Inductive stream_response :=
| JsonResponse (body : json) (status : Z)
| Streamed (events : list stream_event).

Definition generate_ingest_ack (fname : string) (chunks_added : Z)
    (req : chat_request) : list stream_event :=
  [TokenEvent (JStr (ingest_ack fname chunks_added));
   DoneEvent (selected_model req) true true (web_enabled req)].

(** The loop over [response.iter_lines()]: the events yielded, and the
    exception that ends the loop, if one does. *)
Fixpoint relay (req : chat_request) (lines : list stream_line)
    (broken : option exn) : list stream_event * option exn :=
  match lines with
  | [] => ([], broken)
  | EmptyLine :: rest => relay req rest broken
  | Garbage _ :: rest => relay req rest broken
  | Undecodable :: rest => ([], Some UnicodeDecodeError)
  | JsonLine parsed :: rest =>
      match assistant_content parsed with
      | Raise e => ([], Some e)
      | Ok token =>
          let tokens := if truthy token then [TokenEvent token] else [] in
          let done :=
            match parsed with
            | JObj fields => truthy (get_default fields "done" JNull)
            | _ => false
            end in
          if done then
            (tokens ++ [DoneEvent (selected_model req) (rag_enabled req) false
                          (web_enabled req)],
             None)
          else
            let '(events, e) := relay req rest broken in (tokens ++ events, e)
      end
  end.

(** The [except] clauses of [generate]: the event a raised exception
    ends the stream with. *)
Definition stream_error (e : exn) : stream_event :=
  match e with
  | RequestTimeout => ErrorEvent "Request timed out" None
  | _ => ErrorEvent "Streaming failed" (Some (ExceptionText e))
  end.

(** The generator [generate] of [chat_stream]. *)
Definition generate (out : outside) (req : chat_request)
    (messages : list message) : M (list stream_event) :=
  fun w =>
    match ollama_post (ollama out) (selected_model req) messages true w with
    | (Ok (status_code, text, _, lines, broken), w') =>
        if negb (status_code =? 200) then
          (Ok [ErrorEvent "Ollama API error" (Some (ResponseText text))], w')
        else
          match relay req lines broken with
          | (events, None) => (Ok events, w')
          | (events, Some e) => (Ok (events ++ [stream_error e]), w')
          end
    | (Raise e, w') => (Ok [stream_error e], w')
    end.

(** The [try] block of [chat_stream]; the generator it hands to
    [Response] is run to its end. *)
Definition chat_stream_body (cfg : config) (out : outside)
    (data : list (string * json)) : M stream_response :=
  if negb (truthy (JObj data)) || negb (has_key data "message") then
    ret (JsonResponse
           (JObj [("error", JStr "No message provided");
                  ("success", JBool false)])
           400)
  else
    let req := read_request cfg data in
    web <- web_step cfg out req ;;
    match web with
    | None =>
        ret (JsonResponse (fst not_configured_response)
               (snd not_configured_response))
    | Some web_results =>
        if rag_enabled req && should_auto_ingest cfg (user_message req) then
          match user_message req with
          | JStr m =>
              saved <- ingest_pasted_document cfg m ;;
              ret (Streamed (generate_ingest_ack (fst saved) (snd saved) req))
          | _ => raise TypeError
          end
        else
          messages <- build_messages cfg (user_message req)
                        (conversation_history req) (rag_enabled req)
                        (web_enabled req) web_results ;;
          events <- generate out req messages ;;
          ret (Streamed events)
    end.

(** [POST /api/chat/stream] with the request body [data]. *)
Definition chat_stream (cfg : config) (out : outside)
    (data : list (string * json)) : M stream_response :=
  try_except (chat_stream_body cfg out data)
    (fun _ =>
       ret (JsonResponse
              (JObj [("error", JStr "Failed to start stream");
                     ("success", JBool false)])
              500)).

End Orchestrator.

(** ** Notions used in the statements *)

Module Notions.
Import Py Tokenizer Retriever WebLookup PromptBuilder Orchestrator.

(** The order [ranked.sort(..., reverse=True)] establishes. *)
Definition score_ge {A} (a b : Z * A) : Prop := fst b <= fst a.

(** What [rank] keeps: a scored entry for each row sharing a token. *)
Definition scored (query_tokens : gset string) (rows : list chunk_row)
    (entry : Z * context_match) : Prop :=
  1 <= fst entry
  /\ exists r, r ∈ rows
       /\ fst entry = overlap query_tokens r
       /\ snd entry = ContextMatch (filename r) (chunk_index r) (content r).

(** The world after one more call. *)
Definition after (w : world) (e : event) : world :=
  World (db w) (uuid_feed w) (uuid_next w) (trace w ++ [e]).

(** The next [n] draws of [uuid4], from the draw number [next] on. *)
Fixpoint draws (feed : nat -> string) (next n : nat) : list string :=
  match n with
  | O => []
  | S n' => feed next :: draws feed (S next) n'
  end.

(** The rows [add_document_chunks] writes for the chunks of one document. *)
Fixpoint rows_of (fname : string) (index : Z) (chunks : list string)
    (feed : nat -> string) (next : nat) : list chunk_row :=
  match chunks with
  | [] => []
  | part :: chunks' =>
      ChunkRow (feed next) fname index part (sorted (tokenize part))
      :: rows_of fname (index + 1) chunks' feed (S next)
  end.

(** The three fields of a provider item, with [""] for a missing one. *)
Definition result_of (item : list (string * string)) : web_result :=
  WebResult (get_default item "title" "") (get_default item "snippet" "")
    (get_default item "link" "").

Definition all_empty (r : web_result) : Prop :=
  title r = "" /\ snippet r = "" /\ link r = "".

(** The last [n] elements of a list. *)
Definition last_n {A} (n : nat) (l : list A) : list A :=
  drop (length l - n) l.

(** The message a history turn contributes: none unless its role is
    [user] or [assistant] and its content is not empty. *)
Definition turn_message (turn : list (string * json)) : option message :=
  match dict_get turn "role", get_default turn "content" (JStr "") with
  | Some (JStr r), c =>
      if decide ((r = "user" \/ r = "assistant") /\ truthy c = true)
      then Some (Message r c) else None
  | _, _ => None
  end.

(** The web step lets the request through: web mode is off, or the
    credentials are set and the lookup returns. *)
Definition web_passes (cfg : config) (out : outside) (web : bool) : Prop :=
  web = false
  \/ (web_lookup_configured cfg = true
      /\ match google out with
         | GoogleRaises e => is_request_exception e = true
         | GoogleResponse _ _ _ => True
         end).

(** An event other than a request to the model service. *)
Definition not_model_call (e : event) : Prop :=
  match e with
  | OllamaPost _ _ _ => False
  | _ => True
  end.

(** The response of [chat] to any failure other than a timeout. *)
Definition failure_response : json * Z :=
  (JObj [("error", JStr "An error occurred processing your request");
         ("success", JBool false)],
   500).

(** A line of the stream is a record of the protocol when it is a JSON
    object whose [message], if present, is an object; lines that are empty
    or that [json.loads] rejects with a JSONDecodeError are taken as they
    come.  A JSON value of another shape and a line that cannot be decoded
    are outside the protocol. *)
Definition protocol_line (l : stream_line) : Prop :=
  match l with
  | JsonLine (JObj fields) =>
      match dict_get fields "message" with
      | None | Some (JObj _) => True
      | Some _ => False
      end
  | JsonLine _ => False
  | Undecodable => False
  | EmptyLine | Garbage _ => True
  end.

(** The exception the loop raises on a line outside the protocol. *)
Definition line_error (l : stream_line) : exn :=
  match l with
  | Undecodable => UnicodeDecodeError
  | _ => AttributeError
  end.

(** The message content a fragment carries, when it is a record with a
    content that is not empty. *)
Definition fragment_content (l : stream_line) : option json :=
  match l with
  | JsonLine (JObj fields) =>
      match dict_get fields "message" with
      | Some (JObj msg) =>
          match dict_get msg "content" with
          | Some c => if truthy c then Some c else None
          | None => None
          end
      | _ => None
      end
  | _ => None
  end.

(** The fragment is a record with its [done] flag set. *)
Definition fragment_done (l : stream_line) : bool :=
  match l with
  | JsonLine (JObj fields) =>
      match dict_get fields "done" with
      | Some d => truthy d
      | None => false
      end
  | _ => false
  end.

(** The name [ingest_pasted_document] gives a paste, from the rows stored
    before it. *)
Definition paste_name (rows : list chunk_row) : string :=
  "chat-paste-"
  +:+ str_of_int (Z.of_nat (length (remove_dups (map filename rows))) + 1)
  +:+ ".txt".

(** The acknowledgment payload of [chat]. *)
Definition ingest_response (req : chat_request) (fname : string)
    (chunks_added total : Z) : json * Z :=
  (JObj [("success", JBool true);
         ("message", JStr (AutoIngest.ingest_ack fname chunks_added));
         ("model", JStr (selected_model req));
         ("rag_enabled", JBool true);
         ("rag_ingested", JBool true);
         ("rag_total_chunks", JNum total);
         ("web_enabled", JBool (web_enabled req))],
   200).


(** From [w] to [w'] the table gained the rows [added], and whatever was
    done on the way was not a request to the model service. *)
Definition grows_by (w w' : world) (added : list chunk_row) : Prop :=
  db w' = db w ++ added
  /\ exists events,
       trace w' = trace w ++ events /\ Forall not_model_call events.

(** The completion event of a relayed answer. *)
Definition completion (req : chat_request) : stream_event :=
  DoneEvent (selected_model req) (rag_enabled req) false (web_enabled req).

End Notions.
(** ** The other endpoints *)

Module Endpoints.
Import Py Tokenizer Store Retriever WebLookup Orchestrator.

(** [POST /api/rag/clear]: [DELETE FROM rag_chunks], then the commit. *)
Definition rag_clear : M (json * Z) :=
  with_connection (set_db [] ;;; emit DbCommit) ;;;
  ret (JObj [("success", JBool true);
             ("message", JStr "RAG knowledge base cleared")],
       200).

(** [GET /api/rag/status] *)
Definition rag_status : M (json * Z) :=
  filenames <- rag_filenames ;;
  counts <- rag_counts ;;
  ret (JObj [("success", JBool true);
             ("documents", JArr (map JStr filenames));
             ("document_count", JNum (fst counts));
             ("chunk_count", JNum (snd counts))],
       200).

Definition dot : ascii := ascii_of_nat 46.

(** [s.rsplit(".", 1)[-1]] when [s] has a dot: what follows the last one. *)
Fixpoint after_last_dot (s : string) : option string :=
  match s with
  | EmptyString => None
  | String c s' =>
      match after_last_dot s' with
      | Some r => Some r
      | None => if Ascii.eqb c dot then Some s' else None
      end
  end.

(** [filename.lower().rsplit(".", 1)[-1] if "." in filename else ""] *)
Definition extension (fname : string) : string :=
  default "" (after_last_dot (lower fname)).

Definition allowed : list string :=
  ["txt"; "md"; "csv"; "log"; "json"; "yaml"; "yml"].

(** [POST /api/rag/upload].  [file] is [request.files.get("file")]: its
    name, and its bytes as [decode("utf-8", errors="ignore")] gives them. *)
Definition rag_upload (cfg : config) (file : option (string * string))
    : M (json * Z) :=
  match file with
  | None =>
      ret (JObj [("success", JBool false); ("error", JStr "No file provided")],
           400)
  | Some (fname, text) =>
      if negb (nonempty fname) then
        ret (JObj [("success", JBool false);
                   ("error", JStr "No file provided")],
             400)
      else if negb (bool_decide (extension fname ∈ allowed)) then
        ret (JObj [("success", JBool false);
                   ("error", JStr "Unsupported file type. Use txt, md, csv, log, json, yaml, or yml.")],
             400)
      else
        try_except (
          if negb (nonempty (strip text)) then
            ret (JObj [("success", JBool false);
                       ("error", JStr "File is empty")],
                 400)
          else
            chunks_added <- add_document_chunks cfg fname text ;;
            counts <- rag_counts ;;
            ret (JObj [("success", JBool true);
                       ("filename", JStr fname);
                       ("chunks_added", JNum chunks_added);
                       ("total_chunks", JNum (snd counts))],
                 200))
        (fun _ =>
           ret (JObj [("success", JBool false);
                      ("error", JStr "Failed to process file")],
                500))
  end.

(** The reply of the model service to [GET /api/tags]: the call raises, or
    it returns a response whose body lists [models], each an object. *)
Inductive tags_reply :=
| TagsRaises (e : exn)
| TagsResponse (status_code : Z) (models : list (list (string * json))).

(** [ollama_is_ready]; an exception that is not a [RequestException] is
    not caught. *)
Definition ollama_is_ready (t : tags_reply) : result bool :=
  match t with
  | TagsRaises e => if is_request_exception e then Ok false else Raise e
  | TagsResponse status_code _ => Ok (response_ok status_code)
  end.

(** [value == s] for a string [s]. *)
Definition is_str (s : string) (value : json) : bool :=
  match value with
  | JStr t => String.eqb t s
  | _ => false
  end.

(** [[item.get("name") for item in items if item.get("name")]] *)
Fixpoint model_names (items : list (list (string * json))) : list json :=
  match items with
  | [] => []
  | item :: items' =>
      let name := get_default item "name" JNull in
      (if truthy name then [name] else []) ++ model_names items'
  end.

Definition models_payload (cfg : config) (names : list json) : json * Z :=
  (JObj [("models", JArr names); ("default", JStr (OLLAMA_MODEL cfg))], 200).

(** [GET /api/models] *)
Definition models (cfg : config) (t : tags_reply) : result (json * Z) :=
  match t with
  | TagsRaises e =>
      if is_request_exception e
      then Ok (models_payload cfg [JStr (OLLAMA_MODEL cfg)])
      else Raise e
  | TagsResponse status_code items =>
      if negb (response_ok status_code) then
        Ok (models_payload cfg [JStr (OLLAMA_MODEL cfg)])
      else
        let names := model_names items in
        if negb (existsb (is_str (OLLAMA_MODEL cfg)) names)
        then Ok (models_payload cfg (JStr (OLLAMA_MODEL cfg) :: names))
        else Ok (models_payload cfg names)
  end.

(** [GET /api/health] *)
Definition health (cfg : config) (t : tags_reply) : result (json * Z) :=
  match ollama_is_ready t with
  | Raise e => Raise e
  | Ok ready =>
      Ok (JObj [("status", JStr (if ready then "healthy" else "degraded"));
                ("service", JStr "devops-chatbot");
                ("ollama", JStr (if ready then "reachable" else "unreachable"));
                ("model", JStr (OLLAMA_MODEL cfg));
                ("web_lookup",
                 JStr (if web_lookup_configured cfg then "configured"
                       else "not_configured"))],
          if ready then 200 else 503)
  end.

End Endpoints.

(** ** The request body of [chat], whatever JSON value it is *)

Module RequestBody.
Import Py Orchestrator Endpoints.

(** [needle in s] on strings: [needle] occurs in [s]. *)
Fixpoint contains (needle s : string) : bool :=
  String.prefix needle s
  || match s with
     | EmptyString => false
     | String _ s' => contains needle s'
     end.

(** [key in data] for a string [key]: among the keys of an object, the
    elements of an array, the pieces of a string; a number, a boolean and
    [None] are not iterable. *)
Definition json_contains (key : string) (data : json) : result bool :=
  match data with
  | JObj fields => Ok (has_key fields key)
  | JArr items => Ok (existsb (is_str key) items)
  | JStr s => Ok (contains key s)
  | JNull | JBool _ | JNum _ => Raise TypeError
  end.

Definition no_message_response : json * Z :=
  (JObj [("error", JStr "No message provided")], 400).

(** The [try] block of [chat] on the value [data] of
    [request.get_json()].  On an object it is [chat_body].  On another
    value the test of line 406 is the last line that returns:
    [data["message"]] on an array or a string raises TypeError, indices
    being integers. *)
Definition chat_endpoint_body (cfg : config) (out : outside) (data : json)
    : M (json * Z) :=
  match data with
  | JObj fields => chat_body cfg out fields
  | _ =>
      if negb (truthy data) then ret no_message_response
      else
        match json_contains "message" data with
        | Raise e => raise e
        | Ok false => ret no_message_response
        | Ok true => raise TypeError
        end
  end.

(** [POST /api/chat] with the request body the JSON value [data]. *)
Definition chat_endpoint (cfg : config) (out : outside) (data : json)
    : M (json * Z) :=
  try_except (chat_endpoint_body cfg out data) chat_errors.

End RequestBody.

(** ** Notions used in the further statements *)

Module MoreNotions.
Import Py Tokenizer Store Retriever WebLookup PromptBuilder Orchestrator.
Import Endpoints.

(** A character a token is made of: [a-z], [0-9] or [_]. *)
Definition is_token_char (c : ascii) : bool :=
  let n := Z.of_nat (nat_of_ascii c) in
  ((97 <=? n) && (n <=? 122)) || ((48 <=? n) && (n <=? 57)) || (n =? 95).

(** Every character of [s] satisfies [p]. *)
Fixpoint all_chars (p : ascii -> bool) (s : string) : bool :=
  match s with
  | EmptyString => true
  | String c s' => p c && all_chars p s'
  end.

(** [c] is a contiguous piece of [text]. *)
Definition infix_of (c text : string) : Prop :=
  exists before after, text = before +:+ c +:+ after.

(** The match [retrieve_context] builds from a row. *)
Definition match_of (r : chunk_row) : context_match :=
  ContextMatch (filename r) (chunk_index r) (content r).

(** Every row stores the tokens of its own content. *)
Definition store_consistent (rows : list chunk_row) : Prop :=
  Forall (fun r => tokens r = sorted (tokenize (content r))) rows.

(** An event that ends a stream. *)
Definition is_terminal (e : stream_event) : bool :=
  match e with
  | TokenEvent _ => false
  | DoneEvent _ _ _ _ | ErrorEvent _ _ => true
  end.

(** Token events, then at most one final event that ends the stream. *)
Definition well_shaped (events : list stream_event) : Prop :=
  exists tokens final,
    events = tokens ++ final
    /\ Forall (fun e => is_terminal e = false) tokens
    /\ (final = [] \/ exists e, final = [e] /\ is_terminal e = true).

(** A character other than the dot. *)
Definition no_dot (c : ascii) : bool := negb (Ascii.eqb c dot).

(** The answer of [rag_upload] to a file it does not take. *)
Definition upload_rejection (error : string) : json * Z :=
  (JObj [("success", JBool false); ("error", JStr error)], 400).

End MoreNotions.

(** * Verification *)

(** ** Facts about the built-ins *)

Section py_facts.
Import Py.

Lemma nonempty_true s : nonempty s = true <-> s <> "".
Proof. destruct s; simpl; split; congruence. Qed.

Lemma nonempty_false s : nonempty s = false <-> s = "".
Proof. destruct s; simpl; split; congruence. Qed.

Lemma substring_clip s : forall n m,
  String.substring n (Nat.min m (String.length s - n)) s = String.substring n m s.
Proof.
  induction s as [|c s IH]; intros [|n] m.
  - by destruct m.
  - done.
  - destruct m as [|m]; [done|].
    replace (Nat.min (S m) (String.length (String c s) - 0))
      with (S (Nat.min m (String.length s - 0))) by (simpl; lia).
    simpl. f_equal. apply (IH 0%nat m).
  - replace (String.length (String c s) - S n)%nat
      with (String.length s - n)%nat by (simpl; lia).
    simpl. apply IH.
Qed.

Lemma slice_window s (start size : Z) :
  0 <= start <= len s -> 0 <= size ->
  slice s start (start + size) =
  String.substring (Z.to_nat start) (Z.to_nat size) s.
Proof.
  intros Hs Hz. unfold slice, adjust, len in *.
  destruct (Z.ltb_spec start 0); [lia|].
  destruct (Z.ltb_spec (start + size) 0); [lia|].
  rewrite <- (substring_clip s (Z.to_nat start) (Z.to_nat size)).
  f_equal; lia.
Qed.

Lemma lstrip_head s :
  lstrip s = "" \/ exists c r, lstrip s = String c r /\ isspace c = false.
Proof.
  induction s as [|c s IH]; simpl; [by left|].
  destruct (isspace c) eqn:Hc; [exact IH|]. right. eauto.
Qed.

Lemma rstrip_idem s : rstrip (rstrip s) = rstrip s.
Proof.
  induction s as [|c s IH]; simpl; [done|].
  destruct (rstrip s) as [|d r] eqn:Hr.
  - destruct (isspace c) eqn:Hc; simpl; [done|]. by rewrite Hc.
  - change (rstrip (String c (String d r))) with
      (match rstrip (String d r) with
       | "" => if isspace c then "" else String c ""
       | r' => String c r'
       end).
    by rewrite IH.
Qed.

Lemma rstrip_head c s :
  isspace c = false -> exists r, rstrip (String c s) = String c r.
Proof.
  intros Hc. simpl. destruct (rstrip s); rewrite ?Hc; eauto.
Qed.

Lemma strip_idem s : strip (strip s) = strip s.
Proof.
  unfold strip. destruct (lstrip_head s) as [->|(c & r & -> & Hc)]; [done|].
  destruct (rstrip_head c r Hc) as [r' Hr']. rewrite Hr'.
  simpl lstrip. rewrite Hc, <- Hr'. apply rstrip_idem.
Qed.

End py_facts.

(** ** Chunker *)

Section chunker_facts.
Import Py Chunker.

Lemma append_kept acc part :
  (if nonempty part then acc ++ [part] else acc) = acc ++ keep part.
Proof.
  unfold keep. destruct (decide (part = "")) as [->|Hne]; simpl.
  - by rewrite app_nil_r.
  - by destruct part.
Qed.

(** The loop makes progress: the distance from [start] to the end of the
    text bounds the number of iterations left. *)
Lemma chunk_loop_terminates text chunk_size step :
  1 <= step ->
  forall fuel start acc,
    len text - start <= Z.of_nat fuel ->
    is_Some (chunk_loop fuel text chunk_size step start acc).
Proof.
  intros Hstep. induction fuel as [|fuel IH]; intros start acc Hfuel; simpl.
  - destruct (Z.leb_spec (len text) start); [eauto|lia].
  - destruct (Z.leb_spec (len text) start); [eauto|].
    destruct (Z.leb_spec (len text) (start + chunk_size)); [eauto|].
    apply IH. lia.
Qed.

Lemma chunk_loop_fuel_mono text chunk_size step :
  forall fuel fuel' start acc r,
    chunk_loop fuel text chunk_size step start acc = Some r ->
    (fuel <= fuel')%nat ->
    chunk_loop fuel' text chunk_size step start acc = Some r.
Proof.
  induction fuel as [|fuel IH]; intros fuel' start acc r; simpl.
  - destruct (Z.leb_spec (len text) start) as [Hle|Hlt]; [|done].
    intros Hr _. destruct fuel'; simpl;
      by destruct (Z.leb_spec (len text) start); [|lia].
  - destruct (Z.leb_spec (len text) start) as [Hle|Hlt].
    + intros Hr _. destruct fuel'; simpl;
        by destruct (Z.leb_spec (len text) start); [|lia].
    + intros Hr Hf. destruct fuel' as [|fuel']; [lia|]. simpl.
      destruct (Z.leb_spec (len text) start); [lia|].
      destruct (Z.leb_spec (len text) (start + chunk_size)); [done|].
      apply IH; [done|lia].
Qed.

Lemma chunk_text_fuel_enough text chunk_size overlap fuel :
  (String.length text <= fuel)%nat ->
  chunk_text_fuel fuel text chunk_size overlap =
  Some (chunk_text text chunk_size overlap).
Proof.
  intros Hfuel. unfold chunk_text, chunk_text_fuel.
  destruct (nonempty text); [|done].
  destruct (chunk_loop_terminates text chunk_size
              (Z.max 1 (chunk_size - overlap)) ltac:(lia)
              (String.length text) 0 []) as [r Hr].
  { unfold len. lia. }
  rewrite Hr. simpl. eapply chunk_loop_fuel_mono; eauto.
Qed.

Lemma windows_det text chunk_size overlap start r1 r2 :
  windows text chunk_size overlap start r1 ->
  windows text chunk_size overlap start r2 -> r1 = r2.
Proof.
  intros H1. revert r2.
  induction H1 as [start Hstop|start rest Hlt _ IH]; intros r2 H2;
    inversion H2; subst; try lia; [done|].
  f_equal. by apply IH.
Qed.

Lemma windows_kept text chunk_size overlap start r :
  windows text chunk_size overlap start r ->
  Forall (fun c => c <> "" /\ strip c = c) r.
Proof.
  assert (Hkeep : forall w, Forall (fun c => c <> "" /\ strip c = c)
                              (keep (strip w))).
  { intros w. unfold keep. case_decide; [constructor|].
    repeat constructor; [done|apply strip_idem]. }
  induction 1; [apply Hkeep|]. apply Forall_app. split; [apply Hkeep|done].
Qed.

Lemma chunk_loop_windows text chunk_size overlap :
  0 <= overlap < chunk_size ->
  forall fuel (start : nat) acc,
    (start < String.length text)%nat ->
    (String.length text - start <= fuel)%nat ->
    exists r,
      chunk_loop fuel text chunk_size (Z.max 1 (chunk_size - overlap))
        (Z.of_nat start) acc = Some (acc ++ r)
      /\ windows text (Z.to_nat chunk_size) (Z.to_nat overlap) start r.
Proof.
  intros Hov. induction fuel as [|fuel IH]; intros start acc Hstart Hfuel;
    [lia|].
  simpl. unfold len.
  destruct (Z.leb_spec (Z.of_nat (String.length text)) (Z.of_nat start));
    [lia|].
  rewrite append_kept, slice_window by (unfold len; lia).
  rewrite Nat2Z.id.
  destruct (Z.leb_spec (Z.of_nat (String.length text))
              (Z.of_nat start + chunk_size)) as [Hend|Hmore].
  - eexists. split; [done|]. apply windows_stop. lia.
  - set (step := Nat.max 1 (Z.to_nat chunk_size - Z.to_nat overlap)).
    destruct (IH (start + step)%nat
                (acc ++ keep (strip (String.substring start
                                       (Z.to_nat chunk_size) text))))
      as (r & Hr & Hw); [lia..|].
    replace (Z.of_nat start + Z.max 1 (chunk_size - overlap))
      with (Z.of_nat (start + step)) by lia.
    rewrite Hr, <- app_assoc. eexists. split; [done|].
    apply windows_advance; [lia|done].
Qed.

Lemma chunk_text_windows text chunk_size overlap :
  0 <= overlap < chunk_size ->
  windows text (Z.to_nat chunk_size) (Z.to_nat overlap) 0
    (chunk_text text chunk_size overlap).
Proof.
  intros Hov. unfold chunk_text, chunk_text_fuel.
  destruct text as [|c text]; simpl nonempty; cbn iota.
  - simpl. replace (@nil string) with (keep (strip (window "" 0 (Z.to_nat chunk_size)))).
    + apply windows_stop. simpl. lia.
    + unfold window. by destruct (Z.to_nat chunk_size).
  - destruct (chunk_loop_windows (String c text) chunk_size overlap Hov
                (String.length (String c text)) 0%nat [])
      as (r & Hr & Hw); [simpl; lia..|].
    change (Z.of_nat 0) with 0 in Hr. by rewrite Hr.
Qed.

(** C10: [chunk_text] terminates for every text, every chunk size and every
    overlap (so also for [chunk_size >= 1] with [overlap >= chunk_size]):
    the step [max(1, chunk_size - overlap)] is at least 1, and a number of
    iterations equal to the length of the text always lets the loop return
    its list of chunks. *)
Theorem chunk_text_total text chunk_size overlap :
  1 <= Z.max 1 (chunk_size - overlap)
  /\ exists chunks,
       chunk_text text chunk_size overlap = chunks
       /\ forall fuel, (String.length text <= fuel)%nat ->
            chunk_text_fuel fuel text chunk_size overlap = Some chunks.
Proof.
  split; [lia|]. eexists. split; [done|].
  intros fuel Hfuel. by apply chunk_text_fuel_enough.
Qed.

(** C2: for [chunk_size > overlap >= 0], [chunk_text] returns exactly the
    sequence of the windowing algorithm of the specification; the empty text
    gives no chunk; and no returned chunk is empty after trimming. *)
Theorem chunk_text_refines_windowing text chunk_size overlap :
  0 <= overlap < chunk_size ->
  (forall chunks,
     windows text (Z.to_nat chunk_size) (Z.to_nat overlap) 0 chunks
     <-> chunk_text text chunk_size overlap = chunks)
  /\ chunk_text "" chunk_size overlap = []
  /\ Forall (fun c => strip c <> "") (chunk_text text chunk_size overlap).
Proof.
  intros Hov. pose proof (chunk_text_windows text chunk_size overlap Hov) as Hw.
  split; [|split].
  - intros chunks. split.
    + intros H. eapply windows_det; eauto.
    + by intros <-.
  - done.
  - eapply Forall_impl; [eapply windows_kept, Hw|].
    intros c [Hc Hs]. by rewrite Hs.
Qed.

Lemma chunk_text_refines_windowing_witness :
  0 <= 1 < 4
  /\ chunk_text "ab  cdefg" 4 1 = ["ab"; "cde"; "efg"]
  /\ Forall (fun c => strip c <> "") (chunk_text "ab  cdefg" 4 1).
Proof.
  split; [lia|]. split; [reflexivity|].
  apply (chunk_text_refines_windowing "ab  cdefg" 4 1). lia.
Defined.

End chunker_facts.

(** ** Retriever *)

Section retriever_facts.
Import Py Tokenizer Store Retriever Notions.

Lemma insert_desc_perm {A} (x : Z * A) l : insert_desc x l ≡ₚ x :: l.
Proof.
  induction l as [|y l IH]; simpl; [done|].
  destruct (Z.leb_spec (fst y) (fst x)); [done|].
  rewrite IH. apply Permutation_swap.
Qed.

Lemma sort_desc_perm {A} (l : list (Z * A)) : sort_desc l ≡ₚ l.
Proof.
  induction l as [|x l IH]; simpl; [done|].
  rewrite insert_desc_perm. by f_equiv.
Qed.

Lemma insert_desc_sorted {A} (x : Z * A) l :
  StronglySorted score_ge l -> StronglySorted score_ge (insert_desc x l).
Proof.
  induction 1 as [|y l Hl IH Hy]; simpl; [repeat constructor|].
  destruct (Z.leb_spec (fst y) (fst x)) as [Hle|Hgt].
  - constructor; [by constructor|]. constructor; [done|].
    eapply Forall_impl; [exact Hy|]. unfold score_ge. intros; lia.
  - constructor; [done|]. rewrite insert_desc_perm.
    constructor; [unfold score_ge; lia|done].
Qed.

Lemma sort_desc_sorted {A} (l : list (Z * A)) :
  StronglySorted score_ge (sort_desc l).
Proof.
  induction l; simpl; [constructor|]. by apply insert_desc_sorted.
Qed.

Lemma StronglySorted_take {A} (R : relation A) n l :
  StronglySorted R l -> StronglySorted R (take n l).
Proof.
  intros H. revert n. induction H as [|x l Hl IH Hx]; intros [|n]; simpl;
    try constructor; [apply IH|]. by apply Forall_take.
Qed.

Lemma rank_scored query_tokens rows :
  Forall (scored query_tokens rows) (rank query_tokens rows).
Proof.
  induction rows as [|r rows IH]; simpl; [constructor|].
  apply Forall_app. split.
  - destruct (Z.ltb_spec 0 (overlap query_tokens r)); repeat constructor;
      simpl; [lia|]. exists r. split; [left|done].
  - eapply Forall_impl; [exact IH|].
    intros e (H1 & r' & Hin & H2). split; [done|].
    exists r'. split; [by right|done].
Qed.

Lemma list_slice_prefix {A} (l : list A) (k : Z) :
  0 <= k -> list_slice l None (Some k) = take (Z.to_nat k) l.
Proof.
  intros Hk. unfold list_slice, adjust.
  destruct (Z.ltb_spec k 0); [lia|].
  change (Z.to_nat 0) with 0%nat. rewrite drop_0.
  rewrite Z.sub_0_r.
  destruct (Z.le_gt_cases k (Z.of_nat (length l))).
  - by rewrite Z.min_l.
  - rewrite Z.min_r, Nat2Z.id by lia.
    by rewrite (take_ge l (length l)), (take_ge l (Z.to_nat k)) by lia.
Qed.

Lemma top_ranked_spec query_tokens rows top_k :
  1 <= top_k ->
  (length (top_ranked query_tokens rows top_k) <= Z.to_nat top_k)%nat
  /\ Forall (scored query_tokens rows) (top_ranked query_tokens rows top_k)
  /\ StronglySorted score_ge (top_ranked query_tokens rows top_k).
Proof.
  intros Hk. unfold top_ranked. rewrite list_slice_prefix by lia.
  split; [|split].
  - rewrite length_take. lia.
  - apply Forall_take. rewrite sort_desc_perm. apply rank_scored.
  - apply StronglySorted_take, sort_desc_sorted.
Qed.

(** C1: for [top_k >= 1], [retrieve_context] returns the matches of a scored
    list [ranked] of at most [top_k] entries; each entry is a stored chunk
    with its token overlap with the query, which is at least 1; the scores
    are in descending order; a query without tokens gives the empty list
    without any query on the store; and an empty store gives the empty
    list.  The store itself is left as it was. *)
Theorem retrieve_context_spec (query : string) (top_k : Z) (w : world) :
  1 <= top_k ->
  exists ranked w',
    retrieve_context query top_k w = (Ok (map snd ranked), w')
    /\ db w' = db w
    /\ (length ranked <= Z.to_nat top_k)%nat
    /\ Forall (scored (tokenize query) (db w)) ranked
    /\ StronglySorted score_ge ranked
    /\ (tokenize query = ∅ -> ranked = [] /\ w' = w)
    /\ (db w = [] -> ranked = []).
Proof.
  intros Hk. unfold retrieve_context.
  destruct (decide (tokenize query = ∅)) as [He|Hne].
  - exists [], w. repeat split; try done; [simpl; lia|constructor..].
  - unfold bind, with_connection, emit, get_db, ret. simpl.
    destruct (db w) as [|r rows] eqn:Hdb.
    + eexists [], _. repeat split; try done; [simpl; lia|constructor..].
    + destruct (top_ranked_spec (tokenize query) (r :: rows) top_k Hk)
        as (Hlen & Hsc & Hso).
      eexists _, _. split; [reflexivity|]. simpl. repeat split; done.
Qed.

Lemma retrieve_context_spec_witness :
  let rows := [ChunkRow "u1" "a.txt" 0 "alpha beta" ["alpha"; "beta"];
               ChunkRow "u2" "a.txt" 1 "gamma delta" ["delta"; "gamma"];
               ChunkRow "u3" "b.txt" 0 "beta gamma alpha" ["alpha"; "beta"; "gamma"]] in
  let w := World rows (fun _ => "") 0 [] in
  1 <= 2
  /\ fst (retrieve_context "alpha beta gamma" 2 w)
     = Ok [ContextMatch "b.txt" 0 "beta gamma alpha";
           ContextMatch "a.txt" 0 "alpha beta"]
  /\ exists (ranked : list (Z * context_match)) w',
       retrieve_context "alpha beta gamma" 2 w = (Ok (map snd ranked), w')
       /\ (length ranked <= 2)%nat.
Proof.
  intros rows w. split; [lia|]. split; [vm_compute; reflexivity|].
  destruct (retrieve_context_spec "alpha beta gamma" 2 w ltac:(lia))
    as (ranked & w' & H & _ & Hlen & _).
  exists ranked, w'. split; [exact H|exact Hlen].
Defined.

End retriever_facts.

(** ** Auto-ingest heuristic *)

Section auto_ingest_facts.
Import Py AutoIngest AutoIngestSpec.

Lemma count_lstrip c s : isspace c = false -> count c (lstrip s) = count c s.
Proof.
  intros Hc. induction s as [|d s IH]; simpl; [done|].
  destruct (isspace d) eqn:Hd; [|done].
  rewrite IH. destruct (Ascii.eqb_spec c d); [congruence|done].
Qed.

Lemma count_rstrip c s : isspace c = false -> count c (rstrip s) = count c s.
Proof.
  intros Hc. induction s as [|d s IH]; simpl; [done|].
  destruct (rstrip s) as [|e r] eqn:Hr.
  - simpl in IH. rewrite <- IH.
    destruct (isspace d) eqn:Hd; simpl; [|done].
    destruct (Ascii.eqb_spec c d); [congruence|done].
  - change (count c (String d (String e r)))
      with ((if Ascii.eqb c d then 1 else 0) + count c (String e r)).
    by rewrite IH.
Qed.

Lemma count_strip c s : isspace c = false -> count c (strip s) = count c s.
Proof.
  intros Hc. unfold strip. by rewrite count_rstrip, count_lstrip.
Qed.

(** What the code computes, as a proposition. *)
Lemma should_auto_ingest_true cfg m :
  should_auto_ingest cfg (JStr m) = true <->
  strip m <> ""
  /\ (RAG_AUTO_INGEST_MIN_CHARS cfg <= len (strip m)
      \/ 12 <= line_count (strip m))
  /\ count question_mark m < 2.
Proof.
  unfold should_auto_ingest, line_count.
  rewrite <- (count_strip question_mark m) by done.
  destruct (nonempty (strip m)) eqn:Hne.
  - apply nonempty_true in Hne.
    rewrite andb_true_iff, orb_true_iff, negb_true_iff.
    rewrite !Z.leb_le, Z.leb_gt. tauto.
  - apply nonempty_false in Hne. split; [done|]. intros [? _]. done.
Qed.

(** C5, as the code has it: the heuristic reads the message after
    [strip()].  With [t] the trimmed message, [should_auto_ingest] holds
    exactly when [t] is not empty, [t] is long (its length reaches the
    threshold or it has 12 lines or more) and the message has fewer than two
    question marks.  So a message whose trimmed text has 20 lines and one
    question mark triggers; one with 3 lines and three question marks does
    not; one of 700 characters on a single line without question mark
    triggers for a threshold of at most 700. *)
Theorem should_auto_ingest_trimmed cfg m :
  (should_auto_ingest cfg (JStr m) = true <->
   strip m <> "" /\ is_long cfg (strip m) /\ ~ looks_like_question m)
  /\ (line_count (strip m) = 20 -> count question_mark m = 1 ->
      should_auto_ingest cfg (JStr m) = true)
  /\ (line_count (strip m) = 3 -> count question_mark m = 3 ->
      should_auto_ingest cfg (JStr m) = false)
  /\ (RAG_AUTO_INGEST_MIN_CHARS cfg <= 700 ->
      len (strip m) = 700 -> line_count (strip m) = 1 ->
      count question_mark m = 0 ->
      should_auto_ingest cfg (JStr m) = true).
Proof.
  pose proof (should_auto_ingest_true cfg m) as Hiff.
  assert (Hlen : strip m = "" -> len (strip m) = 0 /\ line_count (strip m) = 1).
  { by intros ->. }
  unfold is_long, looks_like_question.
  split; [split|split; [|split]].
  - intros Ht. apply Hiff in Ht. split; [tauto|]. split; [tauto|lia].
  - intros (Ht & Hlong & Hq). apply Hiff. split; [done|]. split; [done|lia].
  - intros Hl Hq. apply Hiff. split; [|lia].
    intros He. apply Hlen in He. lia.
  - intros Hl Hq. apply not_true_is_false. intros E.
    apply Hiff in E. lia.
  - intros Hc Hl Hn Hq. apply Hiff. split; [|lia].
    intros He. apply Hlen in He. lia.
Qed.

Lemma should_auto_ingest_trimmed_witness :
  let m := "is this a paste?" +:+ repeat_str (String newline "line") 19 in
  line_count (strip m) = 20 /\ count question_mark m = 1
  /\ should_auto_ingest default_config (JStr m) = true.
Proof.
  intros m.
  assert (Hl : line_count (strip m) = 20) by reflexivity.
  assert (Hq : count question_mark m = 1) by reflexivity.
  split; [exact Hl|]. split; [exact Hq|].
  exact (proj1 (proj2 (should_auto_ingest_trimmed default_config m)) Hl Hq).
Defined.

(** C5 as stated fails: a message of 600 spaces and one letter has 601
    characters, one line and no question mark, so it is long and not a
    question; the code trims it to one letter and answers no. *)
Lemma should_auto_ingest_untrimmed_counterexample :
  let m := repeat_str " " 600 +:+ "x" in
  triggers default_config m
  /\ should_auto_ingest default_config (JStr m) = false.
Proof.
  intros m.
  assert (Hlen : len m = 601) by (vm_compute; reflexivity).
  assert (Hq : count question_mark m = 0) by (vm_compute; reflexivity).
  split; [|vm_compute; reflexivity].
  unfold triggers, is_long, looks_like_question. simpl. lia.
Qed.

End auto_ingest_facts.

(** ** Web lookup adapter *)

Section web_lookup_facts.
Import Py WebLookup Notions.

Lemma web_lookup_configured_false cfg :
  web_lookup_configured cfg = false <->
  GOOGLE_API_KEY cfg = "" \/ GOOGLE_CSE_ID cfg = "".
Proof.
  unfold web_lookup_configured.
  rewrite andb_false_iff, !nonempty_false. done.
Qed.

Lemma normalize_spec items r :
  r ∈ normalize items <->
  exists item, item ∈ items /\ r = result_of item /\ ~ all_empty r.
Proof.
  induction items as [|item items IH]; simpl.
  - split; [by intros ?%elem_of_nil|]. by intros (? & ?%elem_of_nil & _).
  - rewrite elem_of_app, IH. clear IH.
    fold (result_of item).
    assert (Hkeep :
      nonempty (get_default item "title" "")
      || nonempty (get_default item "snippet" "")
      || nonempty (get_default item "link" "") = true
      <-> ~ all_empty (result_of item)).
    { unfold all_empty, result_of. simpl.
      rewrite !orb_true_iff, !nonempty_true.
      destruct (decide (get_default item "title" "" = ""));
        destruct (decide (get_default item "snippet" "" = ""));
        destruct (decide (get_default item "link" "" = "")); tauto. }
    destruct (nonempty (get_default item "title" "")
              || nonempty (get_default item "snippet" "")
              || nonempty (get_default item "link" "")) eqn:Hk.
    + split.
      * intros [->%list_elem_of_singleton|(i & Hi & Hr)].
        -- exists item. split; [left|]. split; [done|]. by apply Hkeep.
        -- exists i. split; [by right|done].
      * intros (i & [->|Hi]%elem_of_cons & Hr & He).
        -- left. subst r. apply list_elem_of_singleton. done.
        -- right. eauto.
    + split.
      * intros [?%elem_of_nil|(i & Hi & Hr)]; [done|].
        exists i. split; [by right|done].
      * intros (i & [->|Hi]%elem_of_cons & Hr & He).
        -- subst r. apply Hkeep in He. congruence.
        -- right. eauto.
Qed.

(** C7: without credentials the lookup returns [([], "not_configured")] and
    leaves the world, trace included, as it was.  With credentials it makes
    one request, whose [num] is [top_k] clamped to 1..10; a 4xx or 5xx
    response and a raised [RequestException] both give
    [([], "lookup_failed")] as a returned value; and a successful response
    gives the normalized items, those with all three fields empty left
    out. *)
Theorem fetch_google_results_spec cfg g query top_k w :
  (GOOGLE_API_KEY cfg = "" \/ GOOGLE_CSE_ID cfg = "" ->
   fetch_google_results cfg g query top_k w
   = (Ok ([], Some "not_configured"), w))
  /\ (web_lookup_configured cfg = true ->
      let num := Z.max 1 (Z.min top_k 10) in
      1 <= num <= 10
      /\ snd (fetch_google_results cfg g query top_k w)
         = after w (GoogleGet query num)
      /\ match g with
         | GoogleRaises e =>
             is_request_exception e = true ->
             fst (fetch_google_results cfg g query top_k w)
             = Ok ([], Some "lookup_failed")
         | GoogleResponse status_code _ items =>
             (response_ok status_code = false ->
              fst (fetch_google_results cfg g query top_k w)
              = Ok ([], Some "lookup_failed"))
             /\ (response_ok status_code = true ->
                 exists results,
                   fst (fetch_google_results cfg g query top_k w)
                   = Ok (results, None)
                   /\ forall r, r ∈ results <->
                        exists item, item ∈ items /\ r = result_of item
                                     /\ ~ all_empty r)
         end).
Proof.
  split.
  - intros Habs%web_lookup_configured_false.
    unfold fetch_google_results. by rewrite Habs.
  - intros Hconf num. split; [lia|].
    unfold fetch_google_results. rewrite Hconf. simpl negb. cbn iota.
    unfold try_except, bind, google_get, emit, raise, ret, after. simpl.
    destruct g as [e|status_code text items]; simpl.
    + split; [by destruct (is_request_exception e)|]. by intros ->.
    + destruct (response_ok status_code); simpl; split; try done.
      split; [done|]. intros _. eexists. split; [done|].
      apply normalize_spec.
Qed.

Lemma fetch_google_results_spec_witness :
  let cfg := Config "llama3.2:1b" 6 3 700 120 600 5 "key" "cx" in
  let g := GoogleResponse 200 ""
             [[("title", "Rocq"); ("link", "https://rocq-prover.org")];
              [("title", ""); ("snippet", "")];
              [("snippet", "a proof assistant")]] in
  let w := World [] (fun _ => "") 0 [] in
  web_lookup_configured cfg = true
  /\ fetch_google_results cfg g (JStr "rocq") 50 w
     = (Ok ([WebResult "Rocq" "" "https://rocq-prover.org";
             WebResult "" "a proof assistant" ""], None),
        after w (GoogleGet (JStr "rocq") 10))
  /\ 1 <= Z.max 1 (Z.min 50 10) <= 10.
Proof.
  intros cfg g w. split; [reflexivity|]. split; [reflexivity|].
  exact (proj1 (proj2 (fetch_google_results_spec cfg g (JStr "rocq") 50 w)
                  eq_refl)).
Defined.

End web_lookup_facts.

(** ** Document store *)

Section store_facts.
Import Py Tokenizer Chunker Store Notions.

Lemma sorted_tokens_set (s : gset string) : list_to_set (sorted s) = s.
Proof.
  unfold sorted. apply set_eq. intros x.
  rewrite elem_of_list_to_set, merge_sort_Permutation. apply elem_of_elements.
Qed.

Lemma length_rows_of fname chunks feed : forall index next,
  length (rows_of fname index chunks feed next) = length chunks.
Proof. induction chunks; intros; simpl; [done|]. by rewrite IHchunks. Qed.

Lemma ids_rows_of fname chunks feed : forall index next,
  map id (rows_of fname index chunks feed next)
  = draws feed next (length chunks).
Proof. induction chunks; intros; simpl; [done|]. by rewrite IHchunks. Qed.

Lemma lookup_rows_of fname chunks feed : forall index next (i : nat) part,
  chunks !! i = Some part ->
  rows_of fname index chunks feed next !! i
  = Some (ChunkRow (feed (next + i)%nat) fname (index + Z.of_nat i) part
            (sorted (tokenize part))).
Proof.
  induction chunks as [|c chunks IH]; intros index next [|i] part; simpl;
    try done.
  - intros [= ->]. by rewrite Z.add_0_r, Nat.add_0_r.
  - intros H. rewrite (IH _ _ _ _ H).
    replace (S next + i)%nat with (next + S i)%nat by lia.
    by replace (index + 1 + Z.of_nat i) with (index + Z.of_nat (S i)) by lia.
Qed.

Lemma rows_of_shape fname chunks feed : forall index next,
  Forall (fun r => filename r = fname
                   /\ tokens r = sorted (tokenize (content r))
                   /\ list_to_set (tokens r) = tokenize (content r))
    (rows_of fname index chunks feed next).
Proof.
  induction chunks; intros; simpl; constructor; [|done].
  simpl. by rewrite sorted_tokens_set.
Qed.

(** The insertion loop with fresh draws: every row goes in. *)
Lemma insert_chunks_fresh fname chunks : forall index w,
  NoDup (draws (uuid_feed w) (uuid_next w) (length chunks)
         ++ map id (db w)) ->
  insert_chunks fname index chunks w
  = (Ok tt,
     let rows := rows_of fname index chunks (uuid_feed w) (uuid_next w) in
     World (db w ++ rows) (uuid_feed w) (uuid_next w + length chunks)
       (trace w ++ map DbInsert rows)).
Proof.
  induction chunks as [|part chunks IH]; intros index [rows feed next tr];
    simpl.
  - intros _. unfold ret. by rewrite !app_nil_r, Nat.add_0_r.
  - intros Hnd. apply NoDup_cons in Hnd as [Hnew Hnd].
    unfold bind at 1. unfold uuid4 at 1. simpl.
    unfold bind at 1. unfold insert_row, bind at 1, get_db at 1. simpl.
    destruct (decide (feed next ∈ map id rows)) as [Hin|_].
    { exfalso. apply Hnew, elem_of_app. by right. }
    unfold bind, emit, set_db. simpl.
    rewrite IH; simpl.
    + do 2 f_equal; [by rewrite <- app_assoc|lia|by rewrite <- app_assoc].
    + rewrite map_app. simpl.
      apply NoDup_app in Hnd as (Hd & Hdisj & Hr).
      apply NoDup_app. split; [done|]. split.
      * intros x Hx [Hx'|Hx']%elem_of_app; [by eapply Hdisj|].
        apply list_elem_of_singleton in Hx' as ->.
        apply Hnew, elem_of_app. by left.
      * apply NoDup_app. split; [done|]. split; [|apply NoDup_singleton].
        intros x Hx ->%list_elem_of_singleton.
        apply Hnew, elem_of_app. by right.
Qed.

Lemma add_document_chunks_fresh cfg fname text w :
  let chunks := chunk_text text (RAG_CHUNK_SIZE cfg) (RAG_CHUNK_OVERLAP cfg) in
  let rows := rows_of fname 0 chunks (uuid_feed w) (uuid_next w) in
  NoDup (draws (uuid_feed w) (uuid_next w) (length chunks) ++ map id (db w)) ->
  add_document_chunks cfg fname text w
  = (Ok (Z.of_nat (length chunks)),
     World (db w ++ rows) (uuid_feed w) (uuid_next w + length chunks)
       (trace w ++ map DbInsert rows ++ [DbCommit; DbCommit])).
Proof.
  intros chunks rows Hnd. unfold add_document_chunks.
  fold chunks. unfold bind at 1, with_connection. unfold bind at 1.
  rewrite insert_chunks_fresh by done. simpl.
  unfold ret. do 2 f_equal. by rewrite <- !app_assoc.
Qed.

Lemma rag_counts_value w :
  fst (rag_counts w)
  = Ok (Z.of_nat (length (remove_dups (map filename (db w)))),
        Z.of_nat (length (db w))).
Proof. done. Qed.

Lemma rag_filenames_value w :
  fst (rag_filenames w)
  = Ok (merge_sort String.le (remove_dups (map filename (db w)))).
Proof. done. Qed.

(** The insertion loop with a draw that is already taken: the primary key
    refuses the row. *)
Lemma insert_chunks_clash fname chunks : forall index w,
  NoDup (map id (db w)) ->
  ~ NoDup (draws (uuid_feed w) (uuid_next w) (length chunks)
           ++ map id (db w)) ->
  exists w', insert_chunks fname index chunks w = (Raise IntegrityError, w').
Proof.
  induction chunks as [|part chunks IH]; intros index [rows feed next tr];
    simpl; intros Hids Hclash; [done|].
  unfold bind at 1. unfold uuid4 at 1. simpl.
  unfold bind at 1. unfold insert_row, bind at 1, get_db at 1. simpl.
  destruct (decide (feed next ∈ map id rows)) as [Hin|Hnew].
  { unfold raise. by eexists. }
  unfold bind, emit, set_db. simpl. apply IH; simpl.
  - rewrite map_app. simpl. apply NoDup_app. split; [done|].
    split; [|apply NoDup_singleton].
    by intros x Hx ->%list_elem_of_singleton.
  - intros Hnd. apply Hclash. rewrite map_app in Hnd. simpl in Hnd.
    rewrite app_assoc in Hnd.
    apply NoDup_app in Hnd as (Hnd & Hdisj & _). apply NoDup_cons. split; [|done].
    intros Hin. apply (Hdisj _ Hin). by apply list_elem_of_singleton.
Qed.

Lemma add_document_chunks_clash cfg fname text w :
  let chunks := chunk_text text (RAG_CHUNK_SIZE cfg) (RAG_CHUNK_OVERLAP cfg) in
  NoDup (map id (db w)) ->
  ~ NoDup (draws (uuid_feed w) (uuid_next w) (length chunks)
           ++ map id (db w)) ->
  exists w',
    add_document_chunks cfg fname text w = (Raise IntegrityError, w')
    /\ db w' = db w.
Proof.
  intros chunks Hids Hclash. unfold add_document_chunks. fold chunks.
  destruct (insert_chunks_clash fname chunks 0 w Hids Hclash) as (w1 & Hrun).
  unfold bind at 1, with_connection. unfold bind at 1. rewrite Hrun.
  unfold bind, emit, set_db, raise. simpl. by eexists.
Qed.

(** C9: the identifiers of the table being pairwise distinct (the primary
    key), [add_document_chunks f T] returns exactly when the identifiers
    [uuid4] draws for the chunks are new, distinct from each other and from
    the stored ones.  It then returns [len(chunk_text(T))]; the chunk count
    of [rag_counts] has grown by exactly that number; [rag_filenames] lists
    [f] when a chunk was added; the identifiers of the table stay pairwise
    distinct; the rows added carry [chunk_index] 0, 1, 2, ... in the order
    of the chunks; and the token list stored with each is [tokenize] of its
    content, sorted.  With a draw that is taken the call raises and the
    table is as before. *)
Theorem add_document_chunks_spec cfg fname text w :
  let chunks := chunk_text text (RAG_CHUNK_SIZE cfg) (RAG_CHUNK_OVERLAP cfg) in
  let n := length chunks in
  let fresh :=
    NoDup (draws (uuid_feed w) (uuid_next w) n ++ map id (db w)) in
  NoDup (map id (db w)) ->
  (fresh ->
   exists w' added,
     add_document_chunks cfg fname text w = (Ok (Z.of_nat n), w')
     /\ db w' = db w ++ added
     /\ length added = n
     /\ (exists d d' c,
           fst (rag_counts w) = Ok (d, c)
           /\ fst (rag_counts w') = Ok (d', c + Z.of_nat n))
     /\ ((0 < n)%nat ->
         exists names, fst (rag_filenames w') = Ok names /\ fname ∈ names)
     /\ NoDup (map id (db w'))
     /\ (forall r, r ∈ added -> id r ∉ map id (db w))
     /\ (forall (i : nat) part, chunks !! i = Some part ->
         exists r, added !! i = Some r
                   /\ filename r = fname
                   /\ chunk_index r = Z.of_nat i
                   /\ content r = part)
     /\ Forall (fun r => tokens r = sorted (tokenize (content r))
                         /\ list_to_set (tokens r) = tokenize (content r))
          added)
  /\ (~ fresh ->
      exists w',
        add_document_chunks cfg fname text w = (Raise IntegrityError, w')
        /\ db w' = db w).
Proof.
  intros chunks n fresh Hkey.
  split; [|by apply add_document_chunks_clash].
  intros Hnd.
  pose proof (add_document_chunks_fresh cfg fname text w Hnd) as Hrun.
  fold chunks in Hrun. fold n in Hrun.
  set (added := rows_of fname 0 chunks (uuid_feed w) (uuid_next w)) in *.
  assert (Hids : map id added = draws (uuid_feed w) (uuid_next w) n)
    by apply ids_rows_of.
  eexists _, added. split; [exact Hrun|]. simpl.
  split; [done|]. split; [apply length_rows_of|].
  split; [|split; [|split; [|split; [|split]]]].
  - exists (Z.of_nat (length (remove_dups (map filename (db w))))),
      (Z.of_nat (length (remove_dups (map filename (db w ++ added))))),
      (Z.of_nat (length (db w))).
    split; [done|]. simpl.
    assert (Hlen : length (db w ++ added) = (length (db w) + n)%nat).
    { rewrite length_app. unfold added. by rewrite length_rows_of. }
    rewrite Hlen. do 2 f_equal. lia.
  - intros Hpos. eexists. split; [reflexivity|].
    rewrite merge_sort_Permutation, elem_of_remove_dups, map_app.
    apply elem_of_app. right. unfold added, n in *.
    destruct chunks; simpl in *; [lia|]. left.
  - rewrite map_app, Hids. apply NoDup_app in Hnd as (Hd & Hdisj & Hr).
    apply NoDup_app. split; [done|]. split; [|done].
    intros x Hx Hx'. by eapply Hdisj.
  - intros r Hr. apply NoDup_app in Hnd as (_ & Hdisj & _).
    apply Hdisj. rewrite <- Hids. by apply list_elem_of_fmap_2.
  - intros i part Hi. eexists. split.
    + unfold added. by apply lookup_rows_of.
    + simpl. split; [done|]. split; [lia|done].
  - eapply Forall_impl; [apply rows_of_shape|]. simpl. tauto.
Qed.

Lemma add_document_chunks_spec_witness :
  let cfg := Config "llama3.2:1b" 6 3 4 1 600 5 "" "" in
  let w := World [ChunkRow "u0" "old.txt" 0 "old" ["old"]]
             (fun n => "u" +:+ str_of_int (Z.of_nat (S n))) 0 [] in
  exists w' added,
    add_document_chunks cfg "doc.txt" "ab  cdefg" w = (Ok 3, w')
    /\ db w' = db w ++ added
    /\ length added = 3%nat.
Proof.
  intros cfg w.
  destruct (proj1 (add_document_chunks_spec cfg "doc.txt" "ab  cdefg" w
                     ltac:(apply (bool_decide_unpack _); vm_compute;
                           reflexivity)))
    as (w' & added & Hrun & Hdb & Hlen & _).
  { apply (bool_decide_unpack _). vm_compute. reflexivity. }
  exists w', added. split; [exact Hrun|]. split; [exact Hdb|exact Hlen].
Defined.

End store_facts.

(** ** Prompt builder *)

Section prompt_builder_facts.
Import Py Tokenizer Retriever WebLookup PromptBuilder Notions.

Lemma retrieve_context_returns query top_k w :
  exists matches w', retrieve_context query top_k w = (Ok matches, w').
Proof.
  unfold retrieve_context. destruct (decide (tokenize query = ∅)); [by eexists _, _|].
  unfold bind, Store.with_connection, emit, get_db, ret. simpl.
  destruct (db w); by eexists _, _.
Qed.

(** With a message that is a string the system prompt is always built. *)
Lemma build_system_prompt_returns cfg rag m web results w :
  exists prompt w',
    build_system_prompt cfg rag (JStr m) web results w = (Ok prompt, w').
Proof.
  unfold build_system_prompt. destruct rag; simpl; [|by eexists _, _].
  unfold bind.
  destruct (retrieve_context_returns m (RAG_TOP_K cfg) w) as (ms & w' & ->).
  destruct ms; by eexists _, _.
Qed.

Lemma history_messages_turns turns :
  history_messages (map JObj turns) = Ok (omap turn_message turns).
Proof.
  induction turns as [|t turns IH]; simpl; [done|]. rewrite IH.
  f_equal. unfold turn_message, valid_role, get_default.
  destruct (dict_get t "role") as [[| | |r| |]|]; simpl; try done.
  destruct (truthy (default (JStr "") (dict_get t "content"))) eqn:Ht;
    destruct (String.eqb_spec r "user") as [Hu|Hu];
    destruct (String.eqb_spec r "assistant") as [Ha|Ha]; simpl;
    destruct (decide _) as [[Hr Hc]|Hn]; try done;
    solve [destruct Hr; done | exfalso; apply Hn; auto].
Qed.

Lemma list_slice_last {A} (l : list A) (n : Z) :
  1 <= n -> list_slice l (Some (- n)) None = last_n (Z.to_nat n) l.
Proof.
  intros Hn. unfold list_slice, last_n, adjust.
  destruct (Z.ltb_spec (- n) 0); [|lia].
  rewrite take_ge by (rewrite length_drop; lia). f_equal. lia.
Qed.

(** For a bound of at least 1, [build_messages] returns the system message,
    the messages of the last [N] turns of the history and the new user
    message, in that order. *)
Lemma build_messages_bounded cfg m turns rag web results w :
  1 <= CHAT_HISTORY_MESSAGES cfg ->
  exists prompt w',
    build_system_prompt cfg rag (JStr m) web results w = (Ok prompt, w')
    /\ build_messages cfg (JStr m) (JArr (map JObj turns)) rag web results w
       = (Ok ([Message "system" (JStr prompt)]
              ++ omap turn_message
                   (last_n (Z.to_nat (CHAT_HISTORY_MESSAGES cfg)) turns)
              ++ [Message "user" (JStr m)]),
          w').
Proof.
  intros Hn.
  destruct (build_system_prompt_returns cfg rag m web results w)
    as (prompt & w' & Hp).
  exists prompt, w'. split; [done|].
  unfold build_messages, bind. rewrite Hp. unfold bounded_messages.
  rewrite list_slice_last by done. unfold last_n.
  rewrite List.length_map, List.skipn_map.
  by rewrite history_messages_turns.
Qed.

(** With 10 turns and the bound 6, the first 4 turns are dropped. *)
Lemma build_messages_ten_turns cfg m turns rag web results w :
  CHAT_HISTORY_MESSAGES cfg = 6 -> length turns = 10%nat ->
  exists prompt w',
    build_messages cfg (JStr m) (JArr (map JObj turns)) rag web results w
    = (Ok ([Message "system" (JStr prompt)]
           ++ omap turn_message (drop 4 turns)
           ++ [Message "user" (JStr m)]),
       w').
Proof.
  intros HN Hlen.
  destruct (build_messages_bounded cfg m turns rag web results w)
    as (prompt & w' & _ & H); [lia|].
  exists prompt, w'. rewrite H, HN. unfold last_n. by rewrite Hlen.
Qed.

End prompt_builder_facts.

(** ** Streaming relay *)

Section relay_facts.
Import Py WebLookup PromptBuilder Orchestrator Notions.

(** One step of the relay on a record of the protocol. *)
Lemma relay_record req l rest broken :
  protocol_line l ->
  relay req (l :: rest) broken
  = if fragment_done l
    then (option_list (TokenEvent <$> fragment_content l) ++ [completion req],
          None)
    else (option_list (TokenEvent <$> fragment_content l)
            ++ fst (relay req rest broken),
          snd (relay req rest broken)).
Proof.
  destruct l as [|text| |parsed]; simpl.
  - intros _. by destruct (relay req rest broken).
  - intros _. by destruct (relay req rest broken).
  - done.
  - destruct parsed as [| | | | |fields]; try done. simpl.
    unfold get_default.
    destruct (dict_get fields "message") as [[| | | | |msg]|]; try done;
      intros _; simpl.
    + destruct (dict_get msg "content") as [c|]; simpl;
        [destruct (truthy c)|];
        (destruct (dict_get fields "done") as [d|]; simpl;
         [destruct (truthy d)|]); simpl; try done;
        by destruct (relay req rest broken).
    + destruct (dict_get fields "done") as [d|]; simpl;
        [destruct (truthy d)|]; simpl; try done;
        by destruct (relay req rest broken).
Qed.

(** Records without the [done] flag are relayed one after the other. *)
Lemma relay_prefix req pre rest broken :
  Forall protocol_line pre ->
  Forall (fun l => fragment_done l = false) pre ->
  relay req (pre ++ rest) broken
  = ((TokenEvent <$> omap fragment_content pre) ++ fst (relay req rest broken),
     snd (relay req rest broken)).
Proof.
  induction pre as [|l pre IH]; intros Hp Hd; simpl app.
  - simpl. by destruct (relay req rest broken).
  - apply Forall_cons in Hp as [Hl Hp]. apply Forall_cons in Hd as [Hdl Hd].
    rewrite relay_record, Hdl, IH by done. simpl.
    destruct (fragment_content l); simpl; by rewrite ?fmap_app.
Qed.

(** A line outside the protocol is neither skipped nor relayed.  On a
    JSON value of another shape (not an object, or with a [message] that is
    not an object) the attribute lookup raises; on bytes that are not UTF-8
    [json.loads] raises an exception its [except] clause does not name.
    Either way the loop ends there, whatever the line says and whatever
    follows it. *)
Lemma relay_wrong_shape req l rest broken :
  ~ protocol_line l ->
  relay req (l :: rest) broken = ([], Some (line_error l)).
Proof.
  destruct l as [| | |[| | | | |fields]]; simpl; try done.
  unfold get_default.
  by destruct (dict_get fields "message") as [[| | | | |msg]|].
Qed.

(** The event a line outside the protocol ends the stream with. *)
Lemma line_error_event l :
  stream_error (line_error l)
  = ErrorEvent "Streaming failed" (Some (ExceptionText (line_error l))).
Proof. by destruct l. Qed.

(** C3 fails for "every sequence of fragments".  A JSON line whose
    [message] is [null] is not relayed, and its [done] flag is not honoured:
    the stream ends with a "Streaming failed" error event and no completion
    event, and the content fragment after it is never relayed.  A line of
    bytes that are not UTF-8 is malformed and not JSON, yet it is not
    skipped: it ends the stream the same way, before the fragments and the
    [done] record that follow it. *)
Lemma generate_relays_wrong_shape_counterexample :
  let req := ChatRequest (JStr "hello") (JArr []) false false "llama3.2:1b" in
  let token c := JsonLine (JObj [("message", JObj [("content", JStr c)]);
                                 ("done", JBool false)]) in
  let final := JsonLine (JObj [("message", JObj [("content", JStr "")]);
                               ("done", JBool true)]) in
  let bad := JsonLine (JObj [("message", JNull); ("done", JBool true)]) in
  let reply lines :=
    Outside (GoogleRaises RequestTimeout)
      (OllamaResponse 200 "" None lines None) in
  let w := World [] (fun _ => "") 0 [] in
  fragment_done bad = true
  /\ fst (generate (reply [token "Hel"; bad; token "lo"]) req [] w)
     = Ok [TokenEvent (JStr "Hel");
           ErrorEvent "Streaming failed"
             (Some (ExceptionText AttributeError))]
  /\ fst (generate (reply [token "Hel"; Undecodable; token "lo"; final])
            req [] w)
     = Ok [TokenEvent (JStr "Hel");
           ErrorEvent "Streaming failed"
             (Some (ExceptionText UnicodeDecodeError))].
Proof. by vm_compute. Qed.

(** C3, as the code has it: the generator makes one request.  On a
    response other than 200 it yields one error event and stops.  On a 200
    response, as long as the lines are records of the protocol (JSON objects
    whose [message], if present, is an object), empty lines, or lines that
    [json.loads] rejects with a JSONDecodeError: up to the first record with
    the [done] flag it yields, in arrival order, one token event for each
    record with a content that is not empty, then one completion event with
    the selected model and the RAG and web flags, and nothing after it,
    whatever follows; without such a record it yields the token events
    alone; the empty and the rejected lines yield nothing.  The first line
    outside the protocol (a JSON value of another shape, or bytes that
    cannot be decoded) ends the stream instead: after the token events
    relayed so far comes one "Streaming failed" error event, and no
    completion event, even when that line has the [done] flag. *)
Theorem generate_relays out req messages w :
  snd (generate out req messages w)
  = after w (OllamaPost (selected_model req) messages true)
  /\ match ollama out with
     | OllamaRaises _ => True
     | OllamaResponse status_code text _ lines broken =>
         (status_code <> 200 ->
          fst (generate out req messages w)
          = Ok [ErrorEvent "Ollama API error" (Some (ResponseText text))])
         /\ (status_code = 200 ->
             (forall pre d post,
                lines = pre ++ d :: post ->
                Forall protocol_line (pre ++ [d]) ->
                Forall (fun l => fragment_done l = false) pre ->
                fragment_done d = true ->
                fst (generate out req messages w)
                = Ok ((TokenEvent <$> omap fragment_content (pre ++ [d]))
                      ++ [completion req]))
             /\ (Forall protocol_line lines ->
                 Forall (fun l => fragment_done l = false) lines ->
                 broken = None ->
                 fst (generate out req messages w)
                 = Ok (TokenEvent <$> omap fragment_content lines))
             /\ (forall pre bad post,
                   lines = pre ++ bad :: post ->
                   Forall protocol_line pre ->
                   Forall (fun l => fragment_done l = false) pre ->
                   ~ protocol_line bad ->
                   fst (generate out req messages w)
                   = Ok ((TokenEvent <$> omap fragment_content pre)
                         ++ [ErrorEvent "Streaming failed"
                               (Some (ExceptionText (line_error bad)))])))
     end.
Proof.
  unfold generate, ollama_post, bind, emit, raise, ret, after. simpl.
  destruct (ollama out) as [e|status_code text body lines broken]; simpl;
    [by split|].
  destruct (Z.eqb_spec status_code 200) as [->|Hne]; simpl.
  - split; [by destruct (relay req lines broken) as [events [e|]]|].
    split; [by intros ?|]. intros _. split; [|split].
    + intros pre d post -> [Hpre Hd]%Forall_app Hnd Hdone.
      rewrite Forall_singleton in Hd.
      rewrite relay_prefix, relay_record, Hdone by done. simpl.
      rewrite omap_app, fmap_app, <- app_assoc. simpl.
      by destruct (fragment_content d).
    + intros Hp Hd ->.
      rewrite <- (app_nil_r lines) at 1. rewrite relay_prefix by done.
      simpl. by rewrite app_nil_r.
    + intros pre bad post -> Hpre Hnd Hbad.
      rewrite relay_prefix, relay_wrong_shape by done. simpl.
      by rewrite app_nil_r, line_error_event.
  - split; [done|]. split; [done|]. by intros ?.
Qed.

Lemma generate_relays_witness :
  let req := ChatRequest (JStr "hello") (JArr []) false false "llama3.2:1b" in
  let token c := JsonLine (JObj [("message", JObj [("content", JStr c)]);
                                 ("done", JBool false)]) in
  let final := JsonLine (JObj [("message", JObj [("content", JStr "")]);
                               ("done", JBool true)]) in
  let lines := [token "Hel"; Garbage "{oops"; token "lo"; EmptyLine;
                token "!"; final; token "late"] in
  let out := Outside (GoogleRaises RequestTimeout)
               (OllamaResponse 200 "" None lines None) in
  let w := World [] (fun _ => "") 0 [] in
  fst (generate out req [] w)
  = Ok [TokenEvent (JStr "Hel"); TokenEvent (JStr "lo");
        TokenEvent (JStr "!"); completion req].
Proof.
  intros req token final lines out w.
  refine (proj1 (proj2 (proj2 (generate_relays out req [] w)) eq_refl)
            [token "Hel"; Garbage "{oops"; token "lo"; EmptyLine; token "!"]
            final [token "late"] eq_refl _ _ eq_refl).
  - repeat constructor.
  - repeat constructor.
Defined.

End relay_facts.

(** ** History bound *)

Section history_facts.
Import Py WebLookup PromptBuilder Notions.

(** [l[-0:]] is [l[0:]]: the whole list. *)
Lemma list_slice_minus_zero {A} (l : list A) :
  list_slice l (Some (- 0)) None = l.
Proof.
  unfold list_slice, adjust. simpl. destruct l as [|x l]; [done|].
  rewrite Z.min_l, Z.sub_0_r, Nat2Z.id by lia. simpl. by rewrite take_ge.
Qed.

(** With the bound 0 every turn of the history is sent. *)
Lemma build_messages_zero_bound_all cfg m turns rag web results w :
  CHAT_HISTORY_MESSAGES cfg = 0 ->
  exists prompt,
    fst (build_messages cfg (JStr m) (JArr (map JObj turns)) rag web results w)
    = Ok ([Message "system" (JStr prompt)]
          ++ omap turn_message turns ++ [Message "user" (JStr m)]).
Proof.
  intros HN.
  destruct (build_system_prompt_returns cfg rag m web results w)
    as (prompt & w' & Hp).
  exists prompt. unfold build_messages, bind, bounded_messages.
  by rewrite Hp, HN, list_slice_minus_zero, history_messages_turns.
Qed.

(** C4 at the bound 0: the last 0 turns of a history are no turns, yet
    [conversation_history[-0:]] is the whole history, and both turns of a
    two-turn history are sent between the system and the user message. *)
Theorem build_messages_zero_bound :
  let cfg := Config "llama3.2:1b" 0 3 700 120 600 5 "" "" in
  let turns := [[("role", JStr "user"); ("content", JStr "one")];
                [("role", JStr "assistant"); ("content", JStr "two")]] in
  let w := World [] (fun _ => "") 0 [] in
  last_n (Z.to_nat (CHAT_HISTORY_MESSAGES cfg)) turns = []
  /\ fst (build_messages cfg (JStr "three") (JArr (map JObj turns))
            false false [] w)
     = Ok [Message "system" (JStr SYSTEM_PROMPT);
           Message "user" (JStr "one");
           Message "assistant" (JStr "two");
           Message "user" (JStr "three")].
Proof. split; reflexivity. Qed.

End history_facts.

(** ** Chat orchestrator *)

Section orchestrator_facts.
Import Py Tokenizer Chunker Store AutoIngest WebLookup PromptBuilder.
Import Orchestrator Notions.

Lemma has_key_truthy (data : list (string * json)) key :
  has_key data key = true -> truthy (JObj data) = true.
Proof. by destruct data. Qed.

(** A request that reaches the single-shot call: what [chat] does then is
    what [chat_dispatch] does, under the [except] clauses. *)
Lemma chat_reaches_dispatch cfg out data w web_results w1 :
  let req := read_request cfg data in
  has_key data "message" = true ->
  web_step cfg out req w = (Ok (Some web_results), w1) ->
  rag_enabled req && should_auto_ingest cfg (user_message req) = false ->
  chat cfg out data w
  = try_except (chat_dispatch cfg out req web_results) chat_errors w1.
Proof.
  intros req Hkey Hweb Hing. subst req. unfold chat, try_except, chat_body.
  rewrite Hkey, (has_key_truthy _ _ Hkey).
  change (negb true || negb true) with false. cbv iota zeta.
  unfold bind at 1. by rewrite Hweb, Hing.
Qed.



(** The web step of a request that passes it: results to go on with, and
    at most a request to the search provider on the way. *)
Lemma web_step_passes cfg out req w :
  web_passes cfg out (web_enabled req) ->
  exists results events,
    web_step cfg out req w
    = (Ok (Some results),
       World (db w) (uuid_feed w) (uuid_next w) (trace w ++ events))
    /\ Forall not_model_call events.
Proof.
  intros Hpass. unfold web_step. destruct w as [rows feed next tr].
  destruct (web_enabled req) eqn:Hweb.
  - destruct Hpass as [?|[Hconf Hreply]]; [done|].
    unfold bind, fetch_google_results. rewrite Hconf. simpl.
    unfold try_except, bind, google_get, bind, emit, raise, ret. simpl.
    destruct (google out) as [e|status_code text items]; simpl.
    + rewrite Hreply. simpl. eexists _, [_]. split; [done|].
      by repeat constructor.
    + destruct (response_ok status_code); simpl; eexists _, [_];
        (split; [done|]); by repeat constructor.
  - exists [], []. simpl. unfold ret. by rewrite app_nil_r.
Qed.

Lemma rag_counts_run w :
  rag_counts w
  = (Ok (Z.of_nat (length (remove_dups (map filename (db w)))),
         Z.of_nat (length (db w))),
     World (db w) (uuid_feed w) (uuid_next w)
       (trace w ++ [DbCountChunks; DbCountDocuments; DbCommit])).
Proof.
  unfold rag_counts, with_connection, bind, emit, get_db, ret. simpl.
  by rewrite <- !app_assoc.
Qed.

(** A paste stored with fresh identifiers. *)
Lemma ingest_pasted_document_fresh cfg m w :
  let chunks := chunk_text m (RAG_CHUNK_SIZE cfg) (RAG_CHUNK_OVERLAP cfg) in
  let added := rows_of (paste_name (db w)) 0 chunks (uuid_feed w) (uuid_next w) in
  NoDup (draws (uuid_feed w) (uuid_next w) (length chunks) ++ map id (db w)) ->
  ingest_pasted_document cfg m w
  = (Ok (paste_name (db w), Z.of_nat (length chunks)),
     World (db w ++ added) (uuid_feed w) (uuid_next w + length chunks)
       (trace w ++ [DbCountChunks; DbCountDocuments; DbCommit]
        ++ map DbInsert added ++ [DbCommit; DbCommit])).
Proof.
  intros chunks added Hnd. unfold ingest_pasted_document.
  unfold bind at 1. rewrite rag_counts_run. cbv beta iota.
  unfold bind at 1. change (fst (?a, ?b)) with a.
  fold (paste_name (db w)).
  rewrite add_document_chunks_fresh by done.
  unfold ret. simpl. fold chunks. fold added.
  by rewrite <- !app_assoc.
Qed.

Lemma inserts_quiet rows : Forall not_model_call (map DbInsert rows).
Proof. induction rows; by constructor. Qed.

Ltac quiet :=
  repeat first
    [ assumption
    | apply inserts_quiet
    | apply Forall_nil_2
    | apply Forall_app; split
    | apply Forall_cons; split; [exact I|] ].

(** C6, as the code has it: the web step comes first.  For a request whose
    message is a text satisfying the heuristic, with RAG enabled, that
    passes the web step (web mode off, or credentials set and the lookup
    returning), and with fresh identifiers for the chunks: [chat] stores the
    chunks of the message and answers 200 with the acknowledgment payload,
    [rag_ingested] true; [chat_stream] stores them and yields exactly one
    token event with the acknowledgment followed by one completion event;
    and neither makes a request to the model service. *)
Theorem chat_auto_ingest cfg out data m w :
  let req := read_request cfg data in
  let chunks := chunk_text m (RAG_CHUNK_SIZE cfg) (RAG_CHUNK_OVERLAP cfg) in
  let fname := paste_name (db w) in
  let added := rows_of fname 0 chunks (uuid_feed w) (uuid_next w) in
  let n := Z.of_nat (length chunks) in
  dict_get data "message" = Some (JStr m) ->
  rag_enabled req = true ->
  should_auto_ingest cfg (JStr m) = true ->
  web_passes cfg out (web_enabled req) ->
  NoDup (draws (uuid_feed w) (uuid_next w) (length chunks) ++ map id (db w)) ->
  (exists w',
     chat cfg out data w
     = (Ok (ingest_response req fname n (Z.of_nat (length (db w ++ added)))),
        w')
     /\ grows_by w w' added)
  /\ (exists w',
        chat_stream cfg out data w
        = (Ok (Streamed [TokenEvent (JStr (ingest_ack fname n));
                         DoneEvent (selected_model req) true true
                           (web_enabled req)]),
           w')
        /\ grows_by w w' added).
Proof.
  intros req chunks fname added n Hmsg Hrag Hlong Hpass Hnd.
  assert (Hkey : has_key data "message" = true)
    by (unfold has_key; by rewrite Hmsg).
  assert (Hum : user_message req = JStr m)
    by (unfold req, read_request, get_default; simpl; by rewrite Hmsg).
  destruct (web_step_passes cfg out req w Hpass)
    as (results & events & Hweb & Hquiet).
  set (w1 := World (db w) (uuid_feed w) (uuid_next w) (trace w ++ events))
    in *.
  pose proof (ingest_pasted_document_fresh cfg m w1 Hnd) as Hing.
  simpl in Hing. fold chunks fname added in Hing.
  split.
  - unfold chat, try_except, chat_body.
    rewrite Hkey, (has_key_truthy _ _ Hkey).
    change (negb true || negb true) with false. cbv iota zeta. fold req.
    unfold bind at 1. rewrite Hweb, Hrag, Hum, Hlong. cbv iota beta.
    change (true && true) with true. cbv iota.
    unfold bind at 1. rewrite Hing. cbv iota beta.
    unfold bind at 1. rewrite rag_counts_run. unfold ret. simpl.
    eexists. split; [reflexivity|]. split; [done|]. simpl.
    eexists. split; [by rewrite <- !app_assoc|]. quiet.
  - unfold chat_stream, try_except, chat_stream_body.
    rewrite Hkey, (has_key_truthy _ _ Hkey).
    change (negb true || negb true) with false. cbv iota zeta. fold req.
    unfold bind at 1. rewrite Hweb, Hrag, Hum, Hlong. cbv iota beta.
    change (true && true) with true. cbv iota.
    unfold bind at 1. rewrite Hing. unfold ret. simpl.
    eexists. split; [reflexivity|]. split; [done|]. simpl.
    eexists. split; [by rewrite <- !app_assoc|]. quiet.
Qed.

Lemma chat_auto_ingest_witness :
  let m := "note" +:+ repeat_str (String newline "line") 12 in
  let data := [("message", JStr m); ("rag_enabled", JBool true)] in
  let out := Outside (GoogleRaises RequestTimeout) (OllamaRaises RequestTimeout) in
  let w := World [] (fun k => "u" +:+ str_of_int (Z.of_nat k)) 0 [] in
  let added := [ChunkRow "u0" "chat-paste-1.txt" 0 m ["line"; "note"]] in
  exists w',
    chat default_config out data w
    = (Ok (ingest_response (read_request default_config data)
             "chat-paste-1.txt" 1 1), w')
    /\ grows_by w w' added.
Proof.
  intros m data out w added.
  refine (proj1 (chat_auto_ingest default_config out data m w
                   eq_refl eq_refl _ (or_introl eq_refl) _)).
  - vm_compute. reflexivity.
  - apply (bool_decide_unpack _). vm_compute. reflexivity.
Defined.

(** C6 as stated fails: with web mode requested and no credentials set, a
    RAG request whose message satisfies the heuristic is answered with the
    configuration error (status 400) by both endpoints, and nothing is
    stored. *)
Lemma chat_auto_ingest_web_gate_counterexample :
  let m := "note" +:+ repeat_str (String newline "line") 12 in
  let data := [("message", JStr m); ("rag_enabled", JBool true);
               ("web_enabled", JBool true)] in
  let out := Outside (GoogleResponse 200 "" []) (OllamaRaises RequestTimeout) in
  let w := World [] (fun k => "u" +:+ str_of_int (Z.of_nat k)) 0 [] in
  rag_enabled (read_request default_config data) = true
  /\ should_auto_ingest default_config (JStr m) = true
  /\ chat default_config out data w = (Ok not_configured_response, w)
  /\ chat_stream default_config out data w
     = (Ok (JsonResponse (fst not_configured_response) 400), w).
Proof.
  intros m data out w. split; [reflexivity|].
  split; [vm_compute; reflexivity|]. split; reflexivity.
Qed.

End orchestrator_facts.

(** * Further properties *)

(** ** Strings *)

Section string_facts.
Import Py MoreNotions.

Lemma string_app_cons c s t : String c s +:+ t = String c (s +:+ t).
Proof. done. Qed.

Lemma string_app_nil_l s : "" +:+ s = s.
Proof. done. Qed.

Lemma string_length_app s t :
  String.length (s +:+ t) = (String.length s + String.length t)%nat.
Proof.
  induction s as [|c s IH]; [done|].
  rewrite string_app_cons. simpl. by rewrite IH.
Qed.

Lemma string_app_assoc s t u : (s +:+ t) +:+ u = s +:+ (t +:+ u).
Proof.
  induction s as [|c s IH]; [done|]. by rewrite !string_app_cons, IH.
Qed.

Lemma string_app_nil_r s : s +:+ "" = s.
Proof. induction s as [|c s IH]; [done|]. by rewrite string_app_cons, IH. Qed.

Lemma infix_of_length c text :
  infix_of c text -> (String.length c <= String.length text)%nat.
Proof. intros (a & b & ->). rewrite !string_length_app. lia. Qed.

Lemma infix_of_trans a b c : infix_of a b -> infix_of b c -> infix_of a c.
Proof.
  intros (p & q & ->) (p' & q' & ->). exists (p' +:+ p), (q +:+ q').
  by rewrite !string_app_assoc.
Qed.

Lemma lstrip_suffix s : exists a, s = a +:+ lstrip s.
Proof.
  induction s as [|c s [a IH]]; simpl; [by exists ""|].
  destruct (isspace c); [|by exists ""].
  exists (String c a). by rewrite string_app_cons, <- IH.
Qed.

Lemma rstrip_prefix s : exists b, s = rstrip s +:+ b.
Proof.
  induction s as [|c s [b IH]]; simpl; [by exists ""|].
  destruct (rstrip s) as [|d r] eqn:Hr.
  - destruct (isspace c).
    + exists (String c s). done.
    + exists b. by rewrite string_app_cons, <- IH.
  - exists b. by rewrite string_app_cons, <- IH.
Qed.

Lemma strip_infix s : infix_of (strip s) s.
Proof.
  unfold strip. destruct (lstrip_suffix s) as [a Ha].
  destruct (rstrip_prefix (lstrip s)) as [b Hb].
  exists a, b. by rewrite <- Hb, <- Ha.
Qed.

Lemma substring_prefix s : forall m, exists b, s = String.substring 0 m s +:+ b.
Proof.
  induction s as [|c s IH]; intros [|m]; simpl.
  - by exists "".
  - by exists "".
  - by exists (String c s).
  - destruct (IH m) as [b Hb]. exists b. by rewrite string_app_cons, <- Hb.
Qed.

Lemma substring_infix s : forall n m, infix_of (String.substring n m s) s.
Proof.
  induction s as [|c s IH]; intros [|n] m.
  - destruct (substring_prefix "" m) as [b Hb]. by exists "", b.
  - by exists "", "".
  - destruct (substring_prefix (String c s) m) as [b Hb]. by exists "", b.
  - destruct (IH n m) as (a & b & Hab). simpl.
    exists (String c a), b. by rewrite string_app_cons, <- Hab.
Qed.

End string_facts.

(** ** Tokenizer *)

Section tokenizer_facts.
Import Py Tokenizer Retriever MoreNotions.

Lemma lower_char_token c :
  is_word (lower_char c) = true -> is_token_char (lower_char c) = true.
Proof. destruct c as [[] [] [] [] [] [] [] []]; vm_compute; done. Qed.

Lemma lower_char_idem c : lower_char (lower_char c) = lower_char c.
Proof. destruct c as [[] [] [] [] [] [] [] []]; vm_compute; done. Qed.

Lemma lower_idem s : lower (lower s) = lower s.
Proof. induction s; simpl; [done|]. by rewrite lower_char_idem, IHs. Qed.

Lemma length_lower s : String.length (lower s) = String.length s.
Proof. induction s; simpl; [done|]. by rewrite IHs. Qed.

Lemma all_chars_app p s t :
  all_chars p (s +:+ t) = all_chars p s && all_chars p t.
Proof.
  induction s as [|c s IH]; [done|].
  rewrite string_app_cons. simpl. by rewrite IH, andb_assoc.
Qed.

Lemma flush_shape run :
  all_chars is_token_char run = true ->
  Forall (fun t => (3 <= String.length t)%nat
                   /\ all_chars is_token_char t = true) (flush run).
Proof.
  intros Hrun. unfold flush.
  destruct (Nat.leb_spec 3 (String.length run)); by repeat constructor.
Qed.

Lemma findall_words_shape s : forall run,
  all_chars is_token_char run = true ->
  Forall (fun t => (3 <= String.length t)%nat
                   /\ all_chars is_token_char t = true)
    (findall_words run (lower s)).
Proof.
  induction s as [|c s IH]; intros run Hrun; simpl; [by apply flush_shape|].
  destruct (is_word (lower_char c)) eqn:Hc.
  - apply IH. rewrite all_chars_app, Hrun. simpl.
    by rewrite (lower_char_token c Hc).
  - apply Forall_app. split; [by apply flush_shape|]. by apply IH.
Qed.

Lemma findall_words_short s : forall run,
  (String.length run + String.length s < 3)%nat -> findall_words run s = [].
Proof.
  induction s as [|c s IH]; intros run Hlen; simpl in *.
  - unfold flush. by destruct (Nat.leb_spec 3 (String.length run)); [lia|].
  - destruct (is_word c).
    + apply IH. rewrite string_length_app. simpl. lia.
    + rewrite IH by (simpl; lia). unfold flush.
      by destruct (Nat.leb_spec 3 (String.length run)); [lia|].
Qed.

(** X1: every token has at least three characters, each a lower-case
    letter, a digit or an underscore. *)
Theorem tokenize_tokens_shape text :
  set_Forall (fun t => (3 <= String.length t)%nat
                       /\ all_chars is_token_char t = true)
    (tokenize text).
Proof.
  intros t Ht. unfold tokenize in Ht. apply elem_of_list_to_set in Ht.
  pose proof (findall_words_shape text "" eq_refl) as Hall.
  rewrite Forall_forall in Hall. by apply Hall.
Qed.

(** X2: the tokens do not depend on the case of the text: lowering the
    text first changes nothing. *)
Theorem tokenize_case_insensitive text :
  tokenize (lower text) = tokenize text.
Proof. unfold tokenize. by rewrite lower_idem. Qed.

(** X3: a query of fewer than three characters has no token, and
    [retrieve_context] answers it with the empty list without reading the
    store. *)
Theorem retrieve_context_short_query query top_k w :
  (String.length query < 3)%nat ->
  tokenize query = ∅ /\ retrieve_context query top_k w = (Ok [], w).
Proof.
  intros Hlen.
  assert (Hempty : tokenize query = ∅).
  { unfold tokenize. rewrite findall_words_short; [done|].
    rewrite length_lower. simpl. lia. }
  split; [done|]. unfold retrieve_context. by rewrite Hempty.
Qed.

Lemma retrieve_context_short_query_witness :
  let w := World [ChunkRow "u1" "a.txt" 0 "ok then" ["then"]] (fun _ => "") 0 [] in
  retrieve_context "ok" 3 w = (Ok [], w).
Proof.
  intros w.
  exact (proj2 (retrieve_context_short_query "ok" 3 w ltac:(simpl; lia))).
Defined.

End tokenizer_facts.

(** ** Chunker, further *)

Section chunker_more_facts.
Import Py Chunker MoreNotions.

Lemma length_substring s : forall n m,
  (String.length (String.substring n m s) <= m)%nat.
Proof.
  induction s as [|c s IH]; intros [|n] [|m]; simpl; try lia.
  - specialize (IH 0%nat m). lia.
  - apply (IH n 0%nat).
  - apply (IH n (S m)).
Qed.

Lemma substring_whole s : forall m,
  (String.length s <= m)%nat -> String.substring 0 m s = s.
Proof.
  induction s as [|c s IH]; intros [|m] Hm; simpl in *; try done; try lia.
  f_equal. apply IH. lia.
Qed.

Lemma slice_infix s lo hi : infix_of (slice s lo hi) s.
Proof. unfold slice. apply substring_infix. Qed.

(** What holds of every window the loop keeps holds of every chunk. *)
Lemma chunk_loop_Forall (P : string -> Prop) text chunk_size step :
  1 <= step ->
  (forall start, 0 <= start < len text ->
     strip (slice text start (start + chunk_size)) <> "" ->
     P (strip (slice text start (start + chunk_size)))) ->
  forall fuel start acc r,
    0 <= start -> Forall P acc ->
    chunk_loop fuel text chunk_size step start acc = Some r ->
    Forall P r.
Proof.
  intros Hstep Hpart. induction fuel as [|fuel IH]; intros start acc r Hs Hacc;
    simpl.
  - destruct (Z.leb_spec (len text) start); [|done]. by intros [= <-].
  - destruct (Z.leb_spec (len text) start); [by intros [= <-]|].
    rewrite append_kept.
    assert (Hacc' : Forall P (acc ++ keep (strip (slice text start
                                                    (start + chunk_size))))).
    { apply Forall_app. split; [done|]. unfold keep.
      case_decide; [constructor|]. repeat constructor. apply Hpart; [lia|done]. }
    destruct (Z.leb_spec (len text) (start + chunk_size));
      [by intros [= <-]|].
    apply IH; [lia|done].
Qed.

Lemma chunk_text_Forall (P : string -> Prop) text chunk_size overlap :
  (forall start, 0 <= start < len text ->
     strip (slice text start (start + chunk_size)) <> "" ->
     P (strip (slice text start (start + chunk_size)))) ->
  Forall P (chunk_text text chunk_size overlap).
Proof.
  intros Hpart.
  pose proof (chunk_text_fuel_enough text chunk_size overlap
                (String.length text) ltac:(lia)) as Hrun.
  unfold chunk_text_fuel in Hrun. destruct (nonempty text).
  - eapply (chunk_loop_Forall P); [| |done| |exact Hrun]; [lia|done|constructor].
  - injection Hrun as <-. constructor.
Qed.

(** X4: every chunk is a contiguous piece of the text, is not empty and
    has no surrounding whitespace; with a chunk size that is not negative
    it has at most [chunk_size] characters. *)
Theorem chunk_text_chunks text chunk_size overlap :
  Forall (fun c => infix_of c text /\ c <> "" /\ strip c = c
                   /\ (0 <= chunk_size -> len c <= chunk_size))
    (chunk_text text chunk_size overlap).
Proof.
  apply chunk_text_Forall. intros start Hstart Hne.
  split; [|split; [|split]].
  - eapply infix_of_trans; [apply strip_infix|apply slice_infix].
  - done.
  - apply strip_idem.
  - intros Hsize.
    pose proof (infix_of_length _ _
                  (strip_infix (slice text start (start + chunk_size)))) as H1.
    rewrite slice_window in H1 by lia.
    pose proof (length_substring text (Z.to_nat start) (Z.to_nat chunk_size)).
    rewrite slice_window by lia. unfold len. lia.
Qed.

(** X5: a text of at most [chunk_size] characters gives one chunk, the
    text trimmed, or none when it is only whitespace. *)
Theorem chunk_text_short_text text chunk_size overlap :
  len text <= chunk_size ->
  chunk_text text chunk_size overlap = keep (strip text).
Proof.
  intros Hlen. unfold chunk_text, chunk_text_fuel.
  destruct text as [|c text]; [done|]. simpl nonempty. cbv iota.
  remember (String c text) as s eqn:Hs.
  assert (Hpos : 0 < len s) by (subst s; unfold len; simpl; lia).
  replace (String.length s) with (S (String.length text))
    by (subst s; done).
  simpl chunk_loop.
  destruct (Z.leb_spec (len s) 0); [lia|].
  pose proof (append_kept [] (strip (slice s 0 (0 + chunk_size)))) as Hk.
  simpl app in Hk. rewrite Hk.
  destruct (Z.leb_spec (len s) (0 + chunk_size)); [|lia].
  rewrite slice_window by lia.
  rewrite substring_whole by (unfold len in *; lia). done.
Qed.

Lemma chunk_text_short_text_witness :
  len "  hello world " <= 700
  /\ chunk_text "  hello world " 700 120 = ["hello world"].
Proof.
  split; [vm_compute; discriminate|].
  apply (chunk_text_short_text "  hello world " 700 120).
  vm_compute. discriminate.
Defined.

Lemma length_keep w : (length (keep w) <= 1)%nat.
Proof. unfold keep. case_decide; simpl; lia. Qed.

Lemma chunk_loop_count text chunk_size step :
  1 <= step ->
  forall fuel start acc r,
    chunk_loop fuel text chunk_size step start acc = Some r ->
    Z.of_nat (length r)
    <= Z.of_nat (length acc) + Z.max 0 ((len text - start + step - 1) / step).
Proof.
  intros Hstep. induction fuel as [|fuel IH]; intros start acc r; simpl.
  - destruct (Z.leb_spec (len text) start); [|done]. intros [= <-]. lia.
  - destruct (Z.leb_spec (len text) start); [intros [= <-]; lia|].
    rewrite append_kept.
    set (part := strip (slice text start (start + chunk_size))).
    pose proof (length_keep part) as Hk.
    assert (Hdiv : (len text - start + step - 1) / step
                   = (len text - (start + step) + step - 1) / step + 1).
    { rewrite <- Z_div_plus by lia. f_equal. lia. }
    assert (Hnn : 0 <= (len text - (start + step) + step - 1) / step)
      by (apply Z.div_pos; lia).
    destruct (Z.leb_spec (len text) (start + chunk_size)).
    + intros [= <-]. rewrite length_app. lia.
    + intros Hr. apply IH in Hr. rewrite length_app in Hr. lia.
Qed.

(** X6: the number of chunks is at most the length of the text divided by
    the step [max(1, chunk_size - overlap)], rounded up. *)
Theorem chunk_text_count text chunk_size overlap :
  let step := Z.max 1 (chunk_size - overlap) in
  Z.of_nat (length (chunk_text text chunk_size overlap))
  <= (len text + step - 1) / step.
Proof.
  intros step.
  pose proof (chunk_text_fuel_enough text chunk_size overlap
                (String.length text) ltac:(lia)) as Hrun.
  assert (Hnn : 0 <= (len text + step - 1) / step)
    by (apply Z.div_pos; unfold len; lia).
  unfold chunk_text_fuel in Hrun. destruct (nonempty text).
  - apply chunk_loop_count in Hrun; [|lia]. fold step in Hrun.
    rewrite Z.sub_0_r in Hrun. simpl length in Hrun. lia.
  - injection Hrun as <-. simpl. lia.
Qed.

End chunker_more_facts.

(** ** Document store, further *)

Section store_more_facts.
Import Py Tokenizer Chunker Store Retriever Endpoints Notions MoreNotions.

Lemma length_remove_dups {A} `{EqDecision A} (l : list A) :
  (length (remove_dups l) <= length l)%nat.
Proof.
  induction l as [|x l IH]; simpl; [done|].
  destruct (decide_rel elem_of x l); simpl; lia.
Qed.

Lemma remove_dups_nil_inv {A} `{EqDecision A} (l : list A) :
  remove_dups l = [] -> l = [].
Proof.
  destruct l as [|x l]; [done|]. intros H.
  assert (Hx : x ∈ remove_dups (x :: l)) by (apply elem_of_remove_dups; left).
  rewrite H in Hx. by apply elem_of_nil in Hx.
Qed.

Lemma rag_filenames_run w :
  rag_filenames w
  = (Ok (merge_sort String.le (remove_dups (map filename (db w)))),
     World (db w) (uuid_feed w) (uuid_next w)
       (trace w ++ [DbSelectFilenames; DbCommit])).
Proof.
  unfold rag_filenames, with_connection, bind, emit, get_db, ret. simpl.
  by rewrite <- !app_assoc.
Qed.

(** X7: [GET /api/rag/status] leaves the table as it is and reports it
    consistently: [documents] is sorted, without duplicates, and lists
    exactly the file names of the table; [document_count] is its length;
    [chunk_count] is the number of rows; and there are at most as many
    documents as chunks, none exactly when there is no chunk. *)
Theorem rag_status_consistent w :
  exists names d c w',
    rag_status w
    = (Ok (JObj [("success", JBool true);
                 ("documents", JArr (map JStr names));
                 ("document_count", JNum d);
                 ("chunk_count", JNum c)], 200), w')
    /\ db w' = db w
    /\ d = Z.of_nat (length names)
    /\ c = Z.of_nat (length (db w))
    /\ d <= c /\ (d = 0 <-> c = 0)
    /\ NoDup names /\ StronglySorted String.le names
    /\ (forall f, f ∈ names <-> exists r, r ∈ db w /\ filename r = f).
Proof.
  set (fs := remove_dups (map filename (db w))).
  exists (merge_sort String.le fs), (Z.of_nat (length fs)),
    (Z.of_nat (length (db w))).
  eexists. split.
  { unfold rag_status. unfold bind at 1. rewrite rag_filenames_run.
    unfold bind at 1. rewrite rag_counts_run. unfold ret. simpl.
    reflexivity. }
  pose proof (length_remove_dups (map filename (db w))) as Hle.
  rewrite List.length_map in Hle. fold fs in Hle.
  assert (Hlen : length (merge_sort String.le fs) = length fs)
    by apply Permutation_length, merge_sort_Permutation.
  simpl. split; [done|]. split; [by rewrite Hlen|]. split; [done|].
  split; [lia|]. split.
  { split; [|lia]. intros Hd.
    assert (Hfs : fs = []) by (apply length_zero_iff_nil; lia).
    apply remove_dups_nil_inv in Hfs.
    apply (f_equal length) in Hfs. rewrite List.length_map in Hfs.
    simpl in Hfs. lia. }
  split; [|split].
  - rewrite merge_sort_Permutation. apply NoDup_remove_dups.
  - apply StronglySorted_merge_sort; apply _.
  - intros f. rewrite merge_sort_Permutation. unfold fs.
    rewrite elem_of_remove_dups, list_elem_of_In, List.in_map_iff.
    split; intros (r & H1 & H2).
    + exists r. split; [by apply list_elem_of_In|done].
    + exists r. split; [done|by apply list_elem_of_In].
Qed.

Lemma retrieve_context_empty_store query top_k w :
  db w = [] -> fst (retrieve_context query top_k w) = Ok [].
Proof.
  intros Hdb. unfold retrieve_context.
  destruct (decide (tokenize query = ∅)); [done|].
  unfold bind, with_connection, emit, get_db, ret. simpl. by rewrite Hdb.
Qed.

(** X8: after [POST /api/rag/clear] the table is empty: the counts are
    zero, no file name is listed, and every query retrieves nothing. *)
Theorem rag_clear_empties w :
  exists w',
    rag_clear w
    = (Ok (JObj [("success", JBool true);
                 ("message", JStr "RAG knowledge base cleared")], 200), w')
    /\ db w' = []
    /\ fst (rag_counts w') = Ok (0, 0)
    /\ fst (rag_filenames w') = Ok []
    /\ forall query top_k, fst (retrieve_context query top_k w') = Ok [].
Proof.
  eexists. split; [reflexivity|]. simpl. split; [done|].
  split; [done|]. split; [done|].
  intros query top_k. by apply retrieve_context_empty_store.
Qed.

(** The insertion loop keeps the stored tokens right, whether it ends or
    raises. *)
Lemma insert_chunks_consistent fname chunks : forall index w,
  store_consistent (db w) ->
  store_consistent (db (snd (insert_chunks fname index chunks w))).
Proof.
  induction chunks as [|part chunks IH]; intros index [rows feed next tr] Hc;
    simpl; [done|].
  unfold bind at 1. unfold uuid4 at 1. simpl.
  unfold bind at 1. unfold insert_row, bind at 1, get_db at 1. simpl.
  destruct (decide (feed next ∈ map id rows)); [done|].
  unfold bind at 1, emit, set_db. simpl.
  apply IH. simpl. apply Forall_app. split; [done|]. by repeat constructor.
Qed.

(** X9: [add_document_chunks], whatever its outcome, and [rag_clear] keep
    the table such that every row stores the sorted tokens of its own
    content. *)
Theorem store_consistent_kept cfg fname text w :
  store_consistent (db w) ->
  store_consistent (db (snd (add_document_chunks cfg fname text w)))
  /\ store_consistent (db (snd (rag_clear w))).
Proof.
  intros Hc. split; [|constructor].
  unfold add_document_chunks, with_connection.
  pose proof (insert_chunks_consistent fname
                (chunk_text text (RAG_CHUNK_SIZE cfg) (RAG_CHUNK_OVERLAP cfg))
                0 w Hc) as Hrun.
  unfold bind at 1. unfold bind at 1.
  destruct (insert_chunks fname 0 _ w) as [[[]|e] w1]; simpl in *; done.
Qed.

Lemma store_consistent_kept_witness :
  let cfg := Config "llama3.2:1b" 6 3 4 1 600 5 "" "" in
  let w := World [ChunkRow "u1" "old.txt" 0 "old text" ["old"; "text"]]
             (fun _ => "u1") 0 [] in
  store_consistent (db w)
  /\ add_document_chunks cfg "doc.txt" "ab  cdefg" w
     = (Raise IntegrityError,
        World (db w) (uuid_feed w) 1 [DbRollback])
  /\ store_consistent (db (snd (add_document_chunks cfg "doc.txt" "ab  cdefg" w))).
Proof.
  intros cfg w.
  assert (Hc : store_consistent (db w)) by (repeat constructor).
  split; [exact Hc|]. split; [reflexivity|].
  exact (proj1 (store_consistent_kept cfg "doc.txt" "ab  cdefg" w Hc)).
Defined.

Lemma draws_app feed n : forall next m,
  draws feed next (n + m) = draws feed next n ++ draws feed (next + n) m.
Proof.
  induction n as [|n IH]; intros next m; simpl.
  - by rewrite Nat.add_0_r.
  - rewrite IH. by replace (S next + n)%nat with (next + S n)%nat by lia.
Qed.

(** X10: adding the same file name twice, with new identifiers each time,
    stores the chunks twice: the second call starts its [chunk_index] at 0
    again, so the table holds two rows with that file name, the index 0 and
    the same content under different identifiers. *)
Theorem add_document_chunks_twice cfg fname text w :
  let chunks := chunk_text text (RAG_CHUNK_SIZE cfg) (RAG_CHUNK_OVERLAP cfg) in
  let n := length chunks in
  (0 < n)%nat ->
  NoDup (draws (uuid_feed w) (uuid_next w) (n + n) ++ map id (db w)) ->
  exists w1 w2 r1 r2,
    add_document_chunks cfg fname text w = (Ok (Z.of_nat n), w1)
    /\ add_document_chunks cfg fname text w1 = (Ok (Z.of_nat n), w2)
    /\ length (db w2) = (length (db w) + n + n)%nat
    /\ r1 ∈ db w2 /\ r2 ∈ db w2
    /\ id r1 <> id r2
    /\ filename r1 = fname /\ filename r2 = fname
    /\ chunk_index r1 = 0 /\ chunk_index r2 = 0
    /\ content r1 = content r2.
Proof.
  intros chunks n Hpos Hnd. rewrite draws_app in Hnd.
  set (d1 := draws (uuid_feed w) (uuid_next w) n) in *.
  set (d2 := draws (uuid_feed w) (uuid_next w + n) n) in *.
  assert (Hnd1 : NoDup (d1 ++ map id (db w))).
  { pose proof Hnd as Hnd'.
    apply NoDup_app in Hnd' as (Hd & Hdisj & Hids).
    apply NoDup_app in Hd as (Hd1 & _ & _). apply NoDup_app.
    split; [done|]. split; [|done].
    intros x Hx. apply Hdisj, elem_of_app. by left. }
  pose proof (add_document_chunks_fresh cfg fname text w Hnd1) as Hrun1.
  fold chunks in Hrun1. fold n in Hrun1.
  set (rows1 := rows_of fname 0 chunks (uuid_feed w) (uuid_next w)) in *.
  set (w1 := World (db w ++ rows1) (uuid_feed w) (uuid_next w + n)
               (trace w ++ map DbInsert rows1 ++ [DbCommit; DbCommit])) in *.
  assert (Hids1 : map id rows1 = d1) by apply ids_rows_of.
  assert (Hnd2 : NoDup (draws (uuid_feed w1) (uuid_next w1) n
                        ++ map id (db w1))).
  { simpl. fold d2. rewrite map_app, Hids1.
    assert (Hperm : d2 ++ map id (db w) ++ d1 ≡ₚ (d1 ++ d2) ++ map id (db w)).
    { rewrite <- (app_assoc d1), (Permutation_app_comm d1).
      by rewrite <- app_assoc. }
    by rewrite Hperm. }
  pose proof (add_document_chunks_fresh cfg fname text w1 Hnd2) as Hrun2.
  fold chunks in Hrun2. fold n in Hrun2.
  set (rows2 := rows_of fname 0 chunks (uuid_feed w1) (uuid_next w1)) in *.
  destruct chunks as [|part rest] eqn:Hchunks; [simpl in n; lia|].
  eexists w1, _, (ChunkRow (uuid_feed w (uuid_next w)) fname 0 part
                    (sorted (tokenize part))),
    (ChunkRow (uuid_feed w (uuid_next w + n)%nat) fname 0 part
       (sorted (tokenize part))).
  split; [exact Hrun1|]. split; [exact Hrun2|]. simpl.
  split; [|split; [|split; [|split]]]; try done.
  - rewrite !length_app. unfold rows1, rows2.
    rewrite !length_rows_of. fold n. simpl. lia.
  - apply elem_of_app. left. apply elem_of_app. right. left.
  - apply elem_of_app. right. left.
  - intros Heq. simpl in Heq.
    apply NoDup_app in Hnd as (Hd12 & _ & _).
    apply NoDup_app in Hd12 as (_ & Hdisj & _).
    apply (Hdisj (uuid_feed w (uuid_next w))).
    + unfold d1. subst n. simpl. left.
    + unfold d2. subst n. simpl. rewrite Heq. left.
Qed.

Lemma add_document_chunks_twice_witness :
  let cfg := Config "llama3.2:1b" 6 3 700 120 600 5 "" "" in
  let w := World [] (fun k => "u" +:+ str_of_int (Z.of_nat k)) 0 [] in
  exists w1 w2,
    add_document_chunks cfg "doc.txt" "some text" w = (Ok 1, w1)
    /\ add_document_chunks cfg "doc.txt" "some text" w1 = (Ok 1, w2)
    /\ length (db w2) = 2%nat.
Proof.
  intros cfg w.
  destruct (add_document_chunks_twice cfg "doc.txt" "some text" w)
    as (w1 & w2 & r1 & r2 & H1 & H2 & Hlen & _).
  - vm_compute. lia.
  - apply (bool_decide_unpack _). vm_compute. reflexivity.
  - exists w1, w2. split; [exact H1|]. split; [exact H2|exact Hlen].
Defined.

End store_more_facts.

(** ** Retriever, further *)

Section retriever_more_facts.
Import Py Tokenizer Chunker Store Retriever Notions MoreNotions.

Lemma rank_elem_of query_tokens rows e :
  e ∈ rank query_tokens rows <->
  exists r, r ∈ rows /\ 0 < overlap query_tokens r
            /\ e = (overlap query_tokens r, match_of r).
Proof.
  induction rows as [|r rows IH]; simpl.
  - split; [by intros ?%elem_of_nil|]. by intros (? & ?%elem_of_nil & _).
  - rewrite elem_of_app, IH. clear IH. fold (match_of r).
    destruct (Z.ltb_spec 0 (overlap query_tokens r)) as [Hpos|Hnon].
    + split.
      * intros [->%list_elem_of_singleton|(r' & Hin & H)].
        -- exists r. split; [left|done].
        -- exists r'. split; [by right|done].
      * intros (r' & [->|Hin]%elem_of_cons & Hov & ->).
        -- left. by apply list_elem_of_singleton.
        -- right. eauto.
    + split.
      * intros [?%elem_of_nil|(r' & Hin & H)]; [done|].
        exists r'. split; [by right|done].
      * intros (r' & [->|Hin]%elem_of_cons & Hov & ->); [lia|].
        right. eauto.
Qed.

Lemma rank_no_tokens rows : rank ∅ rows = [].
Proof.
  induction rows as [|r rows IH]; simpl; [done|]. rewrite IH.
  unfold overlap. by rewrite intersection_empty_l_L, size_empty.
Qed.

(** The value of [retrieve_context], in all its branches. *)
Lemma retrieve_context_value query top_k w :
  fst (retrieve_context query top_k w)
  = Ok (map snd (top_ranked (tokenize query) (db w) top_k)).
Proof.
  unfold retrieve_context.
  destruct (decide (tokenize query = ∅)) as [->|Hne].
  - unfold top_ranked. rewrite rank_no_tokens. simpl.
    unfold list_slice. simpl. by rewrite take_nil.
  - unfold bind, with_connection, emit, get_db, ret. simpl.
    destruct (db w); [|done]. simpl. unfold top_ranked, list_slice. simpl.
    by rewrite take_nil.
Qed.

Lemma insert_desc_filter {A} (x : Z * A) l v :
  filter (fun e => fst e = v) (insert_desc x l)
  = filter (fun e => fst e = v) (x :: l).
Proof.
  induction l as [|y l IH]; simpl; [done|].
  destruct (Z.leb_spec (fst y) (fst x)) as [Hle|Hgt]; [done|].
  rewrite (filter_cons _ y (insert_desc x l)), IH.
  rewrite !filter_cons.
  destruct (decide (fst y = v)), (decide (fst x = v)); try done. lia.
Qed.

Lemma sort_desc_filter {A} (l : list (Z * A)) v :
  filter (fun e => fst e = v) (sort_desc l) = filter (fun e => fst e = v) l.
Proof.
  induction l as [|x l IH]; simpl; [done|].
  rewrite insert_desc_filter, !filter_cons, IH. done.
Qed.

Lemma rank_in_storage_order query_tokens rows :
  map snd (rank query_tokens rows)
  = map match_of (filter (fun r => 0 < overlap query_tokens r) rows).
Proof.
  induction rows as [|r rows IH]; simpl; [done|].
  rewrite filter_cons, map_app, IH.
  destruct (Z.ltb_spec 0 (overlap query_tokens r));
    destruct (decide (0 < overlap query_tokens r)); try lia; done.
Qed.

(** X11: the sort is stable.  The matches of any one score come out in the
    order of their rows in the table; and the rows [rank] keeps are, in
    the order of the table, those that share a token with the query. *)
Theorem retrieve_ties_in_storage_order query_tokens rows score :
  filter (fun e => fst e = score) (sort_desc (rank query_tokens rows))
  = filter (fun e => fst e = score) (rank query_tokens rows)
  /\ map snd (rank query_tokens rows)
     = map match_of (filter (fun r => 0 < overlap query_tokens r) rows).
Proof. split; [apply sort_desc_filter|apply rank_in_storage_order]. Qed.

(** X12: the limit at and below zero.  With [top_k = 0] nothing is
    returned; with a negative [top_k] the slice [ranked[:top_k]] drops the
    last [-top_k] matches instead of limiting their number. *)
Theorem retrieve_context_nonpositive_limit query top_k w :
  let ranked := sort_desc (rank (tokenize query) (db w)) in
  (top_k = 0 -> fst (retrieve_context query top_k w) = Ok [])
  /\ (top_k < 0 ->
      fst (retrieve_context query top_k w)
      = Ok (map snd (take (length ranked - Z.to_nat (- top_k)) ranked))).
Proof.
  intros ranked. rewrite retrieve_context_value. unfold top_ranked.
  fold ranked. split.
  - intros ->. by rewrite list_slice_prefix by lia.
  - intros Hneg. unfold list_slice, adjust.
    destruct (Z.ltb_spec top_k 0); [|lia].
    change (Z.to_nat 0) with 0%nat. rewrite drop_0. do 3 f_equal. lia.
Qed.

Lemma retrieve_context_nonpositive_limit_witness :
  let rows := [ChunkRow "u1" "a.txt" 0 "alpha beta" ["alpha"; "beta"];
               ChunkRow "u2" "a.txt" 1 "gamma alpha" ["alpha"; "gamma"];
               ChunkRow "u3" "b.txt" 0 "alpha" ["alpha"]] in
  let w := World rows (fun _ => "") 0 [] in
  fst (retrieve_context "alpha beta" 0 w) = Ok []
  /\ fst (retrieve_context "alpha beta" (-1) w)
     = Ok [ContextMatch "a.txt" 0 "alpha beta";
           ContextMatch "a.txt" 1 "gamma alpha"].
Proof.
  intros rows w. split.
  - exact (proj1 (retrieve_context_nonpositive_limit "alpha beta" 0 w) eq_refl).
  - rewrite (proj2 (retrieve_context_nonpositive_limit "alpha beta" (-1) w)
               ltac:(lia)).
    vm_compute. reflexivity.
Defined.

Lemma retrieve_context_all_matches query top_k w :
  Z.of_nat (length (db w)) <= top_k ->
  exists matches,
    fst (retrieve_context query top_k w) = Ok matches
    /\ matches ≡ₚ map match_of
                    (filter (fun r => 0 < overlap (tokenize query) r) (db w)).
Proof.
  intros Hk. eexists. split; [apply retrieve_context_value|].
  unfold top_ranked. rewrite list_slice_prefix by lia.
  assert (Hlen : (length (rank (tokenize query) (db w)) <= length (db w))%nat).
  { rewrite <- (List.length_map snd), rank_in_storage_order, List.length_map.
    apply length_filter. }
  rewrite take_ge.
  - rewrite <- rank_in_storage_order.
    apply Permutation_map, sort_desc_perm.
  - rewrite (Permutation_length (sort_desc_perm _)). lia.
Qed.

(** X13: nothing is dropped but by the limit.  With [top_k] at least the
    number of rows, the result is, up to the order, the matches of all the
    rows that share a token with the query. *)
Theorem retrieve_context_complete query top_k w :
  Z.of_nat (length (db w)) <= top_k ->
  exists matches,
    fst (retrieve_context query top_k w) = Ok matches
    /\ matches ≡ₚ map match_of
                    (filter (fun r => 0 < overlap (tokenize query) r) (db w)).
Proof. apply retrieve_context_all_matches. Qed.

Lemma retrieve_context_complete_witness :
  let rows := [ChunkRow "u1" "a.txt" 0 "alpha beta" ["alpha"; "beta"];
               ChunkRow "u2" "a.txt" 1 "delta" ["delta"]] in
  let w := World rows (fun _ => "") 0 [] in
  exists matches,
    fst (retrieve_context "alpha" 2 w) = Ok matches
    /\ matches ≡ₚ map match_of
                    (filter (fun r => 0 < overlap (tokenize "alpha") r) rows).
Proof.
  intros rows w.
  exact (retrieve_context_complete "alpha" 2 w ltac:(simpl; lia)).
Defined.

Lemma overlap_consistent query_tokens r :
  tokens r = sorted (tokenize (content r)) ->
  overlap query_tokens r
  = Z.of_nat (size (query_tokens ∩ tokenize (content r))).
Proof. intros Ht. unfold overlap. by rewrite Ht, sorted_tokens_set. Qed.

(** X14: what is added is found.  After [add_document_chunks f T] with new
    identifiers, a query sharing a token with a chunk of [T] retrieves
    something for every limit of at least 1, and retrieves that chunk, under
    the name [f] and its index, when the limit is at least the number of
    rows. *)
Theorem add_then_retrieve cfg fname text w (i : nat) part query top_k :
  let chunks := chunk_text text (RAG_CHUNK_SIZE cfg) (RAG_CHUNK_OVERLAP cfg) in
  NoDup (draws (uuid_feed w) (uuid_next w) (length chunks)
         ++ map id (db w)) ->
  chunks !! i = Some part ->
  tokenize query ∩ tokenize part <> ∅ ->
  1 <= top_k ->
  exists w' matches,
    add_document_chunks cfg fname text w
    = (Ok (Z.of_nat (length chunks)), w')
    /\ fst (retrieve_context query top_k w') = Ok matches
    /\ matches <> []
    /\ (Z.of_nat (length (db w')) <= top_k ->
        ContextMatch fname (Z.of_nat i) part ∈ matches).
Proof.
  intros chunks Hnd Hi Hshare Hk.
  pose proof (add_document_chunks_fresh cfg fname text w Hnd) as Hrun.
  fold chunks in Hrun.
  set (rows := rows_of fname 0 chunks (uuid_feed w) (uuid_next w)) in *.
  set (w' := World (db w ++ rows) (uuid_feed w)
               (uuid_next w + length chunks)
               (trace w ++ map DbInsert rows ++ [DbCommit; DbCommit])) in *.
  set (r := ChunkRow (uuid_feed w (uuid_next w + i)%nat) fname
              (0 + Z.of_nat i) part (sorted (tokenize part))).
  assert (Hr : r ∈ db w').
  { simpl. apply elem_of_app. right. apply list_elem_of_lookup. exists i.
    by apply lookup_rows_of. }
  assert (Hov : 0 < overlap (tokenize query) r).
  { rewrite overlap_consistent by done. simpl.
    assert (size (tokenize query ∩ tokenize part) <> 0%nat); [|lia].
    intros Hz%size_empty_inv. apply Hshare. by apply leibniz_equiv. }
  assert (Hrank : (overlap (tokenize query) r, match_of r)
                  ∈ rank (tokenize query) (db w')).
  { apply rank_elem_of. exists r. done. }
  exists w', (map snd (top_ranked (tokenize query) (db w') top_k)).
  split; [exact Hrun|]. split; [apply retrieve_context_value|]. split.
  - unfold top_ranked. rewrite list_slice_prefix by lia.
    rewrite <- (sort_desc_perm (rank (tokenize query) (db w'))) in Hrank.
    destruct (sort_desc (rank (tokenize query) (db w'))) as [|e l];
      [by apply elem_of_nil in Hrank|].
    destruct (Z.to_nat top_k) as [|k] eqn:Hn; [lia|]. done.
  - intros Hall.
    destruct (retrieve_context_all_matches query top_k w' Hall)
      as (ms & Hms & Hperm).
    rewrite retrieve_context_value in Hms. injection Hms as <-.
    apply (proj2 (elem_of_Permutation_proper _ _ _ Hperm)).
    change (ContextMatch fname (Z.of_nat i) part) with (match_of r).
    apply list_elem_of_fmap_2, list_elem_of_filter. done.
Qed.

Lemma add_then_retrieve_witness :
  let cfg := Config "llama3.2:1b" 6 3 700 120 600 5 "" "" in
  let w := World [] (fun k => "u" +:+ str_of_int (Z.of_nat k)) 0 [] in
  exists w' matches,
    add_document_chunks cfg "doc.txt" "Rocq is a proof assistant" w
    = (Ok 1, w')
    /\ fst (retrieve_context "which PROOF tool?" 3 w') = Ok matches
    /\ matches <> [].
Proof.
  intros cfg w.
  destruct (add_then_retrieve cfg "doc.txt" "Rocq is a proof assistant" w
              0 "Rocq is a proof assistant" "which PROOF tool?" 3)
    as (w' & matches & Hadd & Hget & Hne & _).
  - apply (bool_decide_unpack _). vm_compute. reflexivity.
  - vm_compute. reflexivity.
  - apply (bool_decide_unpack _). vm_compute. reflexivity.
  - lia.
  - exists w', matches. split; [exact Hadd|]. split; [exact Hget|exact Hne].
Defined.

End retriever_more_facts.

(** ** Request fields and the heuristic, further *)

Section request_facts.
Import Py AutoIngest WebLookup Orchestrator Notions MoreNotions.

(** X15: the model name is never taken as given.  [resolve_model] returns
    the configured model, or the requested name trimmed, which then is not
    empty; the first for every value that is not a string or is blank. So
    with a configured model that is not empty no request names an empty
    model. *)
Theorem resolve_model_clean cfg v :
  (resolve_model cfg v = OLLAMA_MODEL cfg
   \/ exists s, v = JStr s /\ resolve_model cfg v = strip s
                /\ strip s <> ""
                /\ strip (resolve_model cfg v) = resolve_model cfg v)
  /\ (forall s, v = JStr s -> strip s = "" ->
      resolve_model cfg v = OLLAMA_MODEL cfg)
  /\ ((forall s, v <> JStr s) -> resolve_model cfg v = OLLAMA_MODEL cfg)
  /\ (OLLAMA_MODEL cfg <> "" -> resolve_model cfg v <> "").
Proof.
  unfold resolve_model. destruct v as [| | |s| |]; simpl;
    try (split; [by left|]; split; [by intros ? [=]|]; by split).
  destruct (nonempty (strip s)) eqn:Hs.
  - apply nonempty_true in Hs. split; [|split; [|split]].
    + right. exists s. by rewrite strip_idem.
    + intros s' [= <-] He. done.
    + intros Hno. by destruct (Hno s).
    + done.
  - apply nonempty_false in Hs. split; [by left|]. by repeat split.
Qed.

Lemma resolve_model_clean_witness :
  resolve_model default_config (JStr "  mistral ") = "mistral"
  /\ resolve_model default_config (JStr "   ") = "llama3.2:1b"
  /\ resolve_model default_config JNull = "llama3.2:1b"
  /\ resolve_model default_config (JStr "   ") <> "".
Proof.
  split; [reflexivity|]. split; [reflexivity|]. split; [reflexivity|].
  apply (proj2 (proj2 (proj2 (resolve_model_clean default_config
                                (JStr "   "))))).
  discriminate.
Defined.

Lemma lstrip_spaces a s : all_chars isspace a = true -> lstrip (a +:+ s) = lstrip s.
Proof.
  induction a as [|c a IH]; [done|].
  intros H. simpl in H. apply andb_true_iff in H as [Hc Ha].
  rewrite string_app_cons. simpl lstrip. rewrite Hc. by apply IH.
Qed.

Lemma lstrip_app s b :
  lstrip (s +:+ b) = if nonempty (lstrip s) then lstrip s +:+ b else lstrip b.
Proof.
  induction s as [|c s IH]; [by rewrite string_app_nil_l|].
  rewrite string_app_cons. simpl lstrip.
  destruct (isspace c); [exact IH|done].
Qed.

Lemma rstrip_spaces b : all_chars isspace b = true -> rstrip b = "".
Proof.
  induction b as [|c b IH]; [done|].
  intros H. simpl in H. apply andb_true_iff in H as [Hc Hb].
  simpl. by rewrite (IH Hb), Hc.
Qed.

Lemma rstrip_app_spaces s b :
  all_chars isspace b = true -> rstrip (s +:+ b) = rstrip s.
Proof.
  intros Hb. induction s as [|c s IH];
    [rewrite string_app_nil_l; by apply rstrip_spaces|].
  rewrite string_app_cons. simpl rstrip. by rewrite IH.
Qed.

Lemma strip_pad a m b :
  all_chars isspace a = true -> all_chars isspace b = true ->
  strip (a +:+ m +:+ b) = strip m.
Proof.
  intros Ha Hb. unfold strip. rewrite lstrip_spaces, lstrip_app by done.
  destruct (nonempty (lstrip m)) eqn:Hm.
  - by apply rstrip_app_spaces.
  - apply nonempty_false in Hm. rewrite Hm.
    rewrite <- (string_app_nil_r b), lstrip_spaces by done. done.
Qed.

(** X16: whitespace around a message does not count.  A message padded
    with whitespace on either side is judged by [should_auto_ingest] as the
    message itself; and a value that is not a string is never ingested. *)
Theorem should_auto_ingest_padding cfg a m b :
  all_chars isspace a = true -> all_chars isspace b = true ->
  should_auto_ingest cfg (JStr (a +:+ m +:+ b))
  = should_auto_ingest cfg (JStr m)
  /\ (forall v, (forall s, v <> JStr s) -> should_auto_ingest cfg v = false).
Proof.
  intros Ha Hb. split.
  - unfold should_auto_ingest. by rewrite strip_pad.
  - intros v Hv. destruct v; try done. by destruct (Hv s).
Qed.

Lemma should_auto_ingest_padding_witness :
  let pad := String newline (String newline " ") in
  should_auto_ingest default_config (JStr (pad +:+ "why? how?" +:+ pad))
  = should_auto_ingest default_config (JStr "why? how?").
Proof.
  intros pad.
  exact (proj1 (should_auto_ingest_padding default_config pad "why? how?" pad
                  eq_refl eq_refl)).
Defined.

(** X17: the lookup keeps the provider's order and adds nothing: the
    results are a sublist of the items read field by field, so there are
    never more results than items. *)
Theorem normalize_sublist items :
  sublist (normalize items) (map result_of items)
  /\ (length (normalize items) <= length items)%nat.
Proof.
  assert (Hsub : sublist (normalize items) (map result_of items)).
  { induction items as [|item items IH]; simpl; [constructor|].
    fold (result_of item).
    destruct (nonempty _ || nonempty _ || nonempty _); simpl.
    - by apply sublist_skip.
    - by apply sublist_cons. }
  split; [done|]. apply sublist_length in Hsub.
  by rewrite List.length_map in Hsub.
Qed.

End request_facts.

(** ** Prompt builder, further *)

Section prompt_more_facts.
Import Py Tokenizer Store Retriever WebLookup PromptBuilder Notions MoreNotions.

(** [retrieve_context] reads: the table and the draws are as before. *)
Lemma retrieve_context_reads query top_k w :
  db (snd (retrieve_context query top_k w)) = db w
  /\ uuid_next (snd (retrieve_context query top_k w)) = uuid_next w
  /\ uuid_feed (snd (retrieve_context query top_k w)) = uuid_feed w.
Proof.
  unfold retrieve_context. destruct (decide (tokenize query = ∅)); [done|].
  unfold bind, with_connection, emit, get_db, ret. simpl.
  by destruct (db w).
Qed.

Lemma build_system_prompt_reads cfg rag msg web results w :
  db (snd (build_system_prompt cfg rag msg web results w)) = db w.
Proof.
  unfold build_system_prompt. destruct rag; simpl; [|done].
  unfold bind. destruct msg as [| | |q| |]; try done.
  pose proof (retrieve_context_reads q (RAG_TOP_K cfg) w) as [Hdb _].
  destruct (retrieve_context q (RAG_TOP_K cfg) w) as [[ms|e] w1]; [|done].
  by destruct ms.
Qed.

(** X18: the system prompt always starts with the fixed instruction.
    Without RAG it is built without touching the world, and is the fixed
    instruction alone when there is no web result to show; with RAG a
    message that is not a string makes it raise. *)
Theorem build_system_prompt_base cfg rag msg web results w :
  (forall p w', build_system_prompt cfg rag msg web results w = (Ok p, w') ->
     exists rest, p = SYSTEM_PROMPT +:+ rest)
  /\ (rag = false ->
      exists p, build_system_prompt cfg rag msg web results w = (Ok p, w))
  /\ (rag = false -> web = false \/ results = [] ->
      build_system_prompt cfg rag msg web results w = (Ok SYSTEM_PROMPT, w))
  /\ (rag = true -> (forall s, msg <> JStr s) ->
      build_system_prompt cfg rag msg web results w = (Raise AttributeError, w)).
Proof.
  unfold build_system_prompt.
  set (prompt := match web, results with
                 | true, _ :: _ => _
                 | _, _ => SYSTEM_PROMPT
                 end).
  assert (Hprompt : exists rest, prompt = SYSTEM_PROMPT +:+ rest).
  { unfold prompt. destruct web, results; eauto using string_app_nil_r;
      exists ""; by rewrite string_app_nil_r. }
  destruct Hprompt as [rest0 Hrest0].
  split; [|split; [|split]].
  - intros p w'. destruct rag; simpl.
    + unfold bind. destruct msg as [| | |q| |]; try done.
      destruct (retrieve_context q (RAG_TOP_K cfg) w) as [[ms|e] w1]; [|done].
      destruct ms; intros [= <- <-]; rewrite Hrest0, string_app_assoc;
        by eexists.
    + intros [= <- <-]. by eexists.
  - intros ->. simpl. by eexists.
  - intros -> Hweb. simpl. unfold prompt.
    destruct Hweb as [->| ->]; [done|]. by destruct web.
  - intros -> Hmsg. simpl. unfold bind.
    destruct msg as [| | |q| |]; try done. by destruct (Hmsg q).
Qed.

Lemma build_system_prompt_base_witness :
  let w := World [] (fun _ => "") 0 [] in
  build_system_prompt default_config false (JStr "hi") true [] w
  = (Ok SYSTEM_PROMPT, w)
  /\ build_system_prompt default_config true (JNum 5) false [] w
     = (Raise AttributeError, w).
Proof.
  intros w. split.
  - exact (proj1 (proj2 (proj2 (build_system_prompt_base default_config false
                                   (JStr "hi") true [] w)))
             eq_refl (or_intror eq_refl)).
  - refine (proj2 (proj2 (proj2 (build_system_prompt_base default_config true
                                   (JNum 5) false [] w)))
              eq_refl _).
    intros s. discriminate.
Defined.

Lemma omap_turn_message_valid turns :
  Forall (fun x => (role x = "user" \/ role x = "assistant")
                   /\ truthy (msg_content x) = true)
    (omap turn_message turns).
Proof.
  induction turns as [|t turns IH]; simpl; [constructor|].
  unfold turn_message at 1.
  destruct (dict_get t "role") as [[| | |r| |]|]; try done.
  case_decide as Hv; [|done]. constructor; [|done]. simpl. tauto.
Qed.

Lemma length_omap {A B} (f : A -> option B) l :
  (length (omap f l) <= length l)%nat.
Proof.
  induction l as [|x l IH]; [done|].
  change (omap f (x :: l))
    with (match f x with Some y => y :: omap f l | None => omap f l end).
  destruct (f x); simpl; lia.
Qed.

(** X19: the prompt sent is bounded.  With a bound [N] of at least 1, a
    message that is a string and a history that is a list of objects,
    [build_messages] returns the system message first and the user's
    message last, with at most [N] messages between them, each of the role
    [user] or [assistant] and with a content that is not empty; the table
    is left as it was. *)
Theorem build_messages_shape cfg m turns rag web results w :
  1 <= CHAT_HISTORY_MESSAGES cfg ->
  exists prompt middle w',
    build_messages cfg (JStr m) (JArr (map JObj turns)) rag web results w
    = (Ok (Message "system" (JStr prompt) :: middle
           ++ [Message "user" (JStr m)]), w')
    /\ Z.of_nat (length middle) <= CHAT_HISTORY_MESSAGES cfg
    /\ (length middle <= length turns)%nat
    /\ Forall (fun x => (role x = "user" \/ role x = "assistant")
                        /\ truthy (msg_content x) = true) middle
    /\ db w' = db w.
Proof.
  intros HN.
  destruct (build_messages_bounded cfg m turns rag web results w HN)
    as (prompt & w' & Hp & Hb).
  exists prompt, (omap turn_message
                    (last_n (Z.to_nat (CHAT_HISTORY_MESSAGES cfg)) turns)), w'.
  split; [exact Hb|].
  pose proof (length_omap turn_message
                (last_n (Z.to_nat (CHAT_HISTORY_MESSAGES cfg)) turns)) as Hlen.
  unfold last_n in *. rewrite length_drop in Hlen.
  split; [lia|]. split; [lia|]. split; [apply omap_turn_message_valid|].
  pose proof (build_system_prompt_reads cfg rag (JStr m) web results w) as Hdb.
  by rewrite Hp in Hdb.
Qed.

Lemma build_messages_shape_witness :
  let turn r c := [("role", JStr r); ("content", JStr c)] in
  let turns := [turn "user" "a"; turn "tool" "b"; turn "assistant" "";
                turn "assistant" "c"] in
  let w := World [] (fun _ => "") 0 [] in
  exists prompt middle w',
    build_messages default_config (JStr "d") (JArr (map JObj turns))
      false false [] w
    = (Ok (Message "system" (JStr prompt) :: middle
           ++ [Message "user" (JStr "d")]), w')
    /\ Z.of_nat (length middle) <= 6.
Proof.
  intros turn turns w.
  destruct (build_messages_shape default_config "d" turns false false [] w)
    as (prompt & middle & w' & Hrun & Hlen & _); [simpl; lia|].
  exists prompt, middle, w'. split; [exact Hrun|exact Hlen].
Defined.

End prompt_more_facts.

(** ** The endpoints as a whole *)

Section endpoint_facts.
Import Py Tokenizer Chunker Store AutoIngest WebLookup PromptBuilder.
Import Orchestrator Endpoints RequestBody Notions MoreNotions.

Lemma bind_ok {A B} (c : M A) (k : A -> M B) w b w' :
  bind c k w = (Ok b, w') ->
  exists a w1, c w = (Ok a, w1) /\ k a w1 = (Ok b, w').
Proof.
  unfold bind. destruct (c w) as [[a|e] w1]; [|done]. intros H. eauto.
Qed.

(** Whatever [chat_dispatch] returns is a 200 response. *)
Lemma chat_dispatch_ok cfg out req web_results w resp w' :
  chat_dispatch cfg out req web_results w = (Ok resp, w') -> snd resp = 200.
Proof.
  unfold chat_dispatch.
  intros (messages & w1 & _ & H)%bind_ok.
  apply bind_ok in H as ([[[[status_code text] body] lines] broken] & w2 & _ & H).
  destruct (negb (status_code =? 200)); [done|].
  destruct body as [b|]; [|done].
  destruct (assistant_content b) as [c|e]; [|done].
  destruct (negb (truthy c)); [done|].
  destruct c; try done. by injection H as <- <-.
Qed.

Lemma chat_body_ok cfg out data w resp w' :
  chat_body cfg out data w = (Ok resp, w') ->
  snd resp = 200 \/ snd resp = 400.
Proof.
  unfold chat_body.
  destruct (negb (truthy (JObj data)) || negb (has_key data "message")).
  { intros [= <- <-]. by right. }
  cbv zeta. intros ([results|] & w1 & _ & H)%bind_ok.
  - destruct (rag_enabled _ && should_auto_ingest cfg _).
    + destruct (user_message _) as [| | |m| |]; try done.
      apply bind_ok in H as (saved & w2 & _ & H).
      apply bind_ok in H as (counts & w3 & _ & H).
      injection H as <- <-. by left.
    + left. by eapply chat_dispatch_ok.
  - injection H as <- <-. by right.
Qed.

(** On a body that is an object, [chat] answers with one of four status
    codes, and with 400 when the object has no [message]. *)
Lemma chat_object_answers cfg out data w :
  exists body status w',
    chat cfg out data w = (Ok (body, status), w')
    /\ (status = 200 \/ status = 400 \/ status = 500 \/ status = 504)
    /\ (dict_get data "message" = None ->
        status = 400 /\ w' = w
        /\ body = JObj [("error", JStr "No message provided")]).
Proof.
  unfold chat, try_except.
  destruct (dict_get data "message") as [v|] eqn:Hmsg.
  - destruct (chat_body cfg out data w) as [[[body status]|e] w1] eqn:Hbody.
    + apply chat_body_ok in Hbody. simpl in Hbody.
      exists body, status, w1. split; [done|]. split; [tauto|done].
    + destruct e; eexists _, _, _; (split; [reflexivity|]);
        (split; [tauto|done]).
  - unfold chat_body, has_key. rewrite Hmsg, orb_true_r.
    eexists _, _, _. split; [reflexivity|]. split; [tauto|done].
Qed.

(** On a body that is an object the endpoint is [chat]. *)
Lemma chat_endpoint_object cfg out fields :
  chat_endpoint cfg out (JObj fields) = chat cfg out fields.
Proof. reflexivity. Qed.

(** X20: [chat] always answers, whatever JSON value the request body is.
    No exception leaves it, and the status is 200, 400, 500 or 504.  A body
    that is falsy, or in which [message] does not occur (an object without
    that key, an array without that element, a string without that piece),
    gets 400 "No message provided" and leaves the world as it was, no call
    made and nothing stored.  A body that is not an object and passes that
    test (a number other than 0, [true], a string or an array in which
    [message] occurs) gets the generic failure, status 500, and leaves the
    world as it was too. *)
Theorem chat_always_answers cfg out data w :
  exists body status w',
    chat_endpoint cfg out data w = (Ok (body, status), w')
    /\ (status = 200 \/ status = 400 \/ status = 500 \/ status = 504)
    /\ (truthy data = false \/ json_contains "message" data = Ok false ->
        (body, status) = no_message_response /\ w' = w)
    /\ ((forall fields, data <> JObj fields) ->
        truthy data = true ->
        json_contains "message" data <> Ok false ->
        (body, status) = failure_response /\ w' = w).
Proof.
  destruct data as [|b|n|s|items|fields].
  - eexists _, _, _. split; [reflexivity|]. split; [tauto|].
    split; [done|]. by intros _ ?.
  - destruct b; eexists _, _, _; (split; [reflexivity|]);
      (split; [tauto|]); (split; [|done]).
    + by intros [?|?].
    + done.
  - unfold chat_endpoint, try_except, chat_endpoint_body. simpl.
    destruct (n =? 0); eexists _, _, _; (split; [reflexivity|]);
      (split; [tauto|]); (split; [|done]).
    + done.
    + by intros [?|?].
  - unfold chat_endpoint, try_except, chat_endpoint_body. simpl.
    destruct (nonempty s) eqn:Hs; simpl.
    + destruct (contains "message" s) eqn:Hc; eexists _, _, _;
        (split; [reflexivity|]); (split; [tauto|]); (split; [|done]).
      * by intros [?|?].
      * done.
    + eexists _, _, _. split; [reflexivity|]. split; [tauto|].
      split; [done|]. by intros _ ?.
  - unfold chat_endpoint, try_except, chat_endpoint_body. simpl.
    destruct items as [|item items].
    + eexists _, _, _. split; [reflexivity|]. split; [tauto|].
      split; [done|]. by intros _ ?.
    + cbv iota beta. simpl negb. cbv iota.
      destruct (existsb (is_str "message") (item :: items)) eqn:Hc;
        eexists _, _, _; (split; [reflexivity|]); (split; [tauto|]);
        (split; [|done]).
      * by intros [?|?].
      * done.
  - rewrite chat_endpoint_object.
    destruct (chat_object_answers cfg out fields w)
      as (body & status & w' & Hrun & Hstatus & Hmissing).
    exists body, status, w'. split; [done|]. split; [done|]. split.
    + intros Hno.
      assert (Hnone : dict_get fields "message" = None).
      { destruct Hno as [Hf|Hc].
        - by destruct fields.
        - simpl in Hc. unfold has_key in Hc.
          by destruct (dict_get fields "message"). }
      by destruct (Hmissing Hnone) as (-> & -> & ->).
    + intros Hobj. by destruct (Hobj fields).
Qed.

(** X21: a timeout of the model service is told apart.  When the
    single-shot request is sent and the call ends in a timeout, [chat]
    answers 504; when it raises anything else, 500 with the generic
    message; in both cases with [success] false. *)
Theorem chat_transport_failure cfg out data w web_results w1 messages w2 e :
  let req := read_request cfg data in
  has_key data "message" = true ->
  web_step cfg out req w = (Ok (Some web_results), w1) ->
  rag_enabled req && should_auto_ingest cfg (user_message req) = false ->
  build_messages cfg (user_message req) (conversation_history req)
    (rag_enabled req) (web_enabled req) web_results w1 = (Ok messages, w2) ->
  ollama out = OllamaRaises e ->
  exists body status,
    fst (chat cfg out data w) = Ok (body, status)
    /\ dict_get (match body with JObj f => f | _ => [] end) "success"
       = Some (JBool false)
    /\ (e = RequestTimeout -> status = 504)
    /\ (e <> RequestTimeout -> (body, status) = failure_response).
Proof.
  intros req Hkey Hweb Hing Hbuild Hout.
  rewrite (chat_reaches_dispatch cfg out data w web_results w1) by done.
  fold req. unfold try_except, chat_dispatch. unfold bind at 1.
  rewrite Hbuild. unfold bind at 1.
  unfold ollama_post, bind, emit, raise. rewrite Hout. simpl.
  destruct e; eexists _, _; (split; [reflexivity|]); by repeat split.
Qed.

Lemma chat_transport_failure_witness :
  let data := [("message", JStr "What is Rocq?")] in
  let out := Outside (GoogleRaises RequestTimeout) (OllamaRaises RequestTimeout) in
  let w := World [] (fun _ => "") 0 [] in
  exists body, fst (chat default_config out data w) = Ok (body, 504).
Proof.
  intros data out w.
  destruct (chat_transport_failure default_config out data w [] w
              [Message "system" (JStr SYSTEM_PROMPT);
               Message "user" (JStr "What is Rocq?")] w RequestTimeout
              eq_refl eq_refl eq_refl eq_refl eq_refl)
    as (body & status & Hrun & _ & Hto & _).
  exists body. by rewrite Hrun, (Hto eq_refl).
Defined.

(** X22: a history that cannot be sliced stops the request before the
    model is called.  When the [history] of a request that passed the web
    step is neither a list nor a string, [chat] answers with the generic
    failure and the world is as the web step left it: the store was not
    read and no request was sent. *)
Theorem chat_malformed_history cfg out data w web_results w1 :
  let req := read_request cfg data in
  has_key data "message" = true ->
  web_step cfg out req w = (Ok (Some web_results), w1) ->
  rag_enabled req && should_auto_ingest cfg (user_message req) = false ->
  (forall l, conversation_history req <> JArr l) ->
  (forall s, conversation_history req <> JStr s) ->
  chat cfg out data w = (Ok failure_response, w1).
Proof.
  intros req Hkey Hweb Hing Hl Hs.
  rewrite (chat_reaches_dispatch cfg out data w web_results w1) by done.
  fold req. unfold try_except, chat_dispatch, bind, build_messages.
  destruct (conversation_history req) as [| | |s|l|]; try done.
  - by destruct (Hs s).
  - by destruct (Hl l).
Qed.

Lemma chat_malformed_history_witness :
  let data := [("message", JStr "hi"); ("history", JNull)] in
  let out := Outside (GoogleRaises RequestTimeout) (OllamaRaises RequestTimeout) in
  let w := World [] (fun _ => "") 0 [] in
  chat default_config out data w = (Ok failure_response, w).
Proof.
  intros data out w.
  apply (chat_malformed_history default_config out data w [] w);
    try reflexivity; intros; discriminate.
Defined.

(** X30: the web step comes before everything else a request does.  When
    web mode is requested and the credentials of the search provider are
    not set, both endpoints answer with the configuration error, status
    400, whatever the message, the RAG flag and the history are: the world
    is left as it was, nothing stored, no request sent to the provider or
    to the model service. *)
Theorem web_gate_comes_first cfg out data w :
  has_key data "message" = true ->
  web_enabled (read_request cfg data) = true ->
  web_lookup_configured cfg = false ->
  chat cfg out data w = (Ok not_configured_response, w)
  /\ chat_stream cfg out data w
     = (Ok (JsonResponse (fst not_configured_response) 400), w).
Proof.
  intros Hkey Hweb Hcfg.
  assert (Hstep : web_step cfg out (read_request cfg data) w = (Ok None, w)).
  { unfold web_step, bind, fetch_google_results. by rewrite Hweb, Hcfg. }
  split.
  - unfold chat, try_except, chat_body.
    rewrite Hkey, (has_key_truthy _ _ Hkey).
    change (negb true || negb true) with false. cbv iota zeta.
    unfold bind at 1. by rewrite Hstep.
  - unfold chat_stream, try_except, chat_stream_body.
    rewrite Hkey, (has_key_truthy _ _ Hkey).
    change (negb true || negb true) with false. cbv iota zeta.
    unfold bind at 1. by rewrite Hstep.
Qed.

Lemma web_gate_comes_first_witness :
  let m := "note" +:+ repeat_str (String newline "line") 12 in
  let data := [("message", JStr m); ("rag_enabled", JBool true);
               ("web_enabled", JBool true)] in
  let out := Outside (GoogleResponse 200 "" []) (OllamaRaises RequestTimeout) in
  let w := World [] (fun k => "u" +:+ str_of_int (Z.of_nat k)) 0 [] in
  chat default_config out data w = (Ok not_configured_response, w)
  /\ chat_stream default_config out data w
     = (Ok (JsonResponse (fst not_configured_response) 400), w).
Proof.
  intros m data out w.
  apply (web_gate_comes_first default_config out data w); reflexivity.
Defined.

End endpoint_facts.

(** ** The stream as a whole *)

Section stream_facts.
Import Py Tokenizer Chunker Store AutoIngest WebLookup PromptBuilder.
Import Orchestrator Endpoints Notions MoreNotions.

Lemma well_shaped_tokens events :
  Forall (fun e => is_terminal e = false) events -> well_shaped events.
Proof.
  intros H. exists events, []. rewrite app_nil_r. split; [done|].
  split; [done|by left].
Qed.

Lemma well_shaped_ended tokens e :
  Forall (fun e => is_terminal e = false) tokens -> is_terminal e = true ->
  well_shaped (tokens ++ [e]).
Proof.
  intros H He. exists tokens, [e]. split; [done|]. split; [done|].
  right. by exists e.
Qed.

(** What the loop over the lines yields: token events, closed by the
    completion event when it ends on a [done] record. *)
Lemma relay_tokens req lines broken :
  exists tokens,
    Forall (fun e => is_terminal e = false) tokens
    /\ (relay req lines broken = (tokens, snd (relay req lines broken))
        \/ relay req lines broken = (tokens ++ [completion req], None)).
Proof.
  induction lines as [|l lines (tokens & Htok & IH)]; simpl.
  - exists []. split; [constructor|by left].
  - destruct l as [|text| |parsed]; [by exists tokens..| |].
    { exists []. split; [constructor|by left]. }
    destruct (assistant_content parsed) as [token|e].
    + set (here := if truthy token then [TokenEvent token] else []).
      assert (Hhere : Forall (fun e => is_terminal e = false) here).
      { unfold here. destruct (truthy token); by repeat constructor. }
      destruct (match parsed with
                | JObj fields => truthy (get_default fields "done" JNull)
                | _ => false
                end).
      * exists here. split; [done|]. by right.
      * exists (here ++ tokens). split; [by apply Forall_app|].
        destruct IH as [IH|IH]; rewrite IH; simpl.
        -- by left.
        -- right. by rewrite app_assoc.
    + exists []. split; [constructor|by left].
Qed.

Lemma stream_error_terminal e : is_terminal (stream_error e) = true.
Proof. by destruct e. Qed.

Lemma generate_well_shaped out req messages w :
  exists events,
    generate out req messages w
    = (Ok events, after w (OllamaPost (selected_model req) messages true))
    /\ well_shaped events.
Proof.
  unfold generate, ollama_post, bind, emit, raise, ret, after. simpl.
  destruct (ollama out) as [e|status_code text body lines broken]; simpl.
  { eexists. split; [reflexivity|].
    apply (well_shaped_ended []); [constructor|apply stream_error_terminal]. }
  destruct (negb (status_code =? 200)).
  { eexists. split; [reflexivity|]. by apply (well_shaped_ended []). }
  destruct (relay_tokens req lines broken) as (tokens & Htok & [Hr|Hr]);
    rewrite Hr.
  - destruct (snd (relay req lines broken)) as [e|];
      (eexists; split; [reflexivity|]).
    + apply well_shaped_ended; [done|apply stream_error_terminal].
    + by apply well_shaped_tokens.
  - eexists. split; [reflexivity|]. by apply well_shaped_ended.
Qed.

(** X23: a stream ends at most once.  Whatever the model service sends or
    raises, [generate] makes its one request and yields token events
    followed by at most one final event, a completion or an error: nothing
    follows a completion or an error, and no second one is sent. *)
Theorem generate_stream_shape out req messages w :
  exists events,
    generate out req messages w
    = (Ok events, after w (OllamaPost (selected_model req) messages true))
    /\ well_shaped events.
Proof. apply generate_well_shaped. Qed.

(** X24: failures inside the stream keep what was relayed.  On a 200
    response, after records of the protocol without [done] flag: a line
    outside the protocol (a JSON line of another shape, which raises
    AttributeError, or bytes that cannot be decoded) ends the stream with a
    "Streaming failed" event; so does an exception of the transport, which
    is told as "Request timed out" when it is a timeout; and the token
    events of the records before come first in each case. *)
Theorem generate_failure_midstream out req messages w text body pre rest broken :
  ollama out = OllamaResponse 200 text body (pre ++ rest) broken ->
  Forall protocol_line pre ->
  Forall (fun l => fragment_done l = false) pre ->
  (forall bad post, rest = bad :: post -> ~ protocol_line bad ->
     fst (generate out req messages w)
     = Ok ((TokenEvent <$> omap fragment_content pre)
           ++ [ErrorEvent "Streaming failed"
                 (Some (ExceptionText (line_error bad)))]))
  /\ (forall e, rest = [] -> broken = Some e ->
        fst (generate out req messages w)
        = Ok ((TokenEvent <$> omap fragment_content pre) ++ [stream_error e])
        /\ (e = RequestTimeout ->
            stream_error e = ErrorEvent "Request timed out" None)).
Proof.
  intros Hout Hp Hd.
  unfold generate, ollama_post, bind, emit, raise, ret. rewrite Hout. simpl.
  rewrite relay_prefix by done. split.
  - intros bad post -> Hbad. rewrite relay_wrong_shape by done. simpl.
    by rewrite app_nil_r, line_error_event.
  - intros e -> ->. simpl. rewrite app_nil_r. split; [done|]. by intros ->.
Qed.

Lemma generate_failure_midstream_witness :
  let req := ChatRequest (JStr "hello") (JArr []) false false "llama3.2:1b" in
  let token c := JsonLine (JObj [("message", JObj [("content", JStr c)])]) in
  let out := Outside (GoogleRaises RequestTimeout)
               (OllamaResponse 200 "" None
                  ([token "Hel"; token "lo"] ++ [JsonLine (JArr [])]) None) in
  let w := World [] (fun _ => "") 0 [] in
  fst (generate out req [] w)
  = Ok [TokenEvent (JStr "Hel"); TokenEvent (JStr "lo");
        ErrorEvent "Streaming failed" (Some (ExceptionText AttributeError))].
Proof.
  intros req token out w.
  refine (proj1 (generate_failure_midstream out req [] w "" None
                   [token "Hel"; token "lo"] [JsonLine (JArr [])] None
                   eq_refl _ _) (JsonLine (JArr [])) [] eq_refl _).
  - repeat constructor.
  - repeat constructor.
  - intros H. exact H.
Defined.

(** X25: [chat_stream] always answers, and in one of two ways: with a
    JSON error of status 400 or 500, or with a stream of token events
    closed by at most one final event. *)
Theorem chat_stream_always_answers cfg out data w :
  exists response w',
    chat_stream cfg out data w = (Ok response, w')
    /\ match response with
       | JsonResponse _ status => status = 400 \/ status = 500
       | Streamed events => well_shaped events
       end.
Proof.
  unfold chat_stream, try_except.
  destruct (chat_stream_body cfg out data w) as [[response|e] w1] eqn:Hbody.
  2: { eexists _, _. split; [reflexivity|]. by right. }
  exists response, w1. split; [done|].
  revert Hbody. unfold chat_stream_body.
  destruct (negb (truthy (JObj data)) || negb (has_key data "message")).
  { intros [= <- <-]. by left. }
  cbv zeta. intros ([results|] & w2 & _ & H)%bind_ok.
  - destruct (rag_enabled _ && should_auto_ingest cfg _).
    + destruct (user_message _) as [| | |m| |]; try done.
      apply bind_ok in H as (saved & w3 & _ & H). injection H as <- <-.
      unfold generate_ingest_ack.
      apply (well_shaped_ended [_]); by repeat constructor.
    + apply bind_ok in H as (messages & w3 & _ & H).
      apply bind_ok in H as (events & w4 & Hgen & H). injection H as <- <-.
      destruct (generate_well_shaped out (read_request cfg data) messages w3)
        as (events' & Hgen' & Hshape).
      rewrite Hgen in Hgen'. by injection Hgen' as -> _.
  - injection H as <- <-. by left.
Qed.

End stream_facts.

(** ** Upload and model list *)

Section upload_facts.
Import Py Tokenizer Chunker Store AutoIngest WebLookup PromptBuilder.
Import Orchestrator Endpoints Notions MoreNotions.

Lemma lower_app a b : lower (a +:+ b) = lower a +:+ lower b.
Proof.
  induction a as [|c a IH]; [done|].
  rewrite string_app_cons. simpl. by rewrite IH.
Qed.

Lemma lower_char_no_dot c : no_dot (lower_char c) = no_dot c.
Proof. destruct c as [[] [] [] [] [] [] [] []]; vm_compute; done. Qed.

Lemma lower_no_dot s : all_chars no_dot (lower s) = all_chars no_dot s.
Proof. induction s; simpl; [done|]. by rewrite lower_char_no_dot, IHs. Qed.

Lemma after_last_dot_none s :
  all_chars no_dot s = true -> after_last_dot s = None.
Proof.
  induction s as [|c s IH]; [done|]. intros H. simpl in H.
  apply andb_true_iff in H as [Hc Hs]. simpl. rewrite (IH Hs).
  unfold no_dot in Hc. by destruct (Ascii.eqb c dot).
Qed.

Lemma after_last_dot_suffix stem ext :
  all_chars no_dot ext = true ->
  after_last_dot (stem +:+ String dot ext) = Some ext.
Proof.
  intros Hext. induction stem as [|c stem IH].
  - rewrite string_app_nil_l. simpl. by rewrite (after_last_dot_none _ Hext).
  - rewrite string_app_cons. simpl. by rewrite IH.
Qed.

(** X26: only what follows the last dot counts, whatever its case.  The
    extension of [stem.ext], for an [ext] without dot, is [ext] in lower
    case; a name without dot has the empty extension, which is not among
    the allowed ones. *)
Theorem extension_last_suffix stem ext :
  all_chars no_dot ext = true ->
  extension (stem +:+ String dot ext) = lower ext
  /\ extension ext = ""
  /\ "" ∉ allowed.
Proof.
  intros Hext. unfold extension. split; [|split].
  - rewrite lower_app. simpl lower.
    change (lower_char dot) with dot.
    by rewrite after_last_dot_suffix by (by rewrite lower_no_dot).
  - by rewrite after_last_dot_none by (by rewrite lower_no_dot).
  - apply (bool_decide_unpack _). vm_compute. reflexivity.
Qed.

Lemma extension_last_suffix_witness :
  extension "notes.v2.TXT" = "txt" /\ extension "archive.tar.gz" = "gz".
Proof.
  split.
  - exact (proj1 (extension_last_suffix "notes.v2" "TXT" eq_refl)).
  - exact (proj1 (extension_last_suffix "archive.tar" "gz" eq_refl)).
Defined.

(** X27: what [rag_upload] refuses, it refuses without a trace.  A missing
    file, a file without name, a name whose extension is not allowed and a
    content that is blank are each answered with status 400, and the world
    is as it was: nothing stored, no identifier drawn. *)
Theorem rag_upload_refuses cfg w :
  rag_upload cfg None w = (Ok (upload_rejection "No file provided"), w)
  /\ (forall text,
       rag_upload cfg (Some ("", text)) w
       = (Ok (upload_rejection "No file provided"), w))
  /\ (forall fname text,
       fname <> "" -> extension fname ∉ allowed ->
       rag_upload cfg (Some (fname, text)) w
       = (Ok (upload_rejection "Unsupported file type. Use txt, md, csv, log, json, yaml, or yml."), w))
  /\ (forall fname text,
       fname <> "" -> extension fname ∈ allowed -> strip text = "" ->
       rag_upload cfg (Some (fname, text)) w
       = (Ok (upload_rejection "File is empty"), w)).
Proof.
  split; [done|]. split; [done|]. split.
  - intros fname text Hname Hext. unfold rag_upload.
    apply nonempty_true in Hname. rewrite Hname. simpl.
    by rewrite bool_decide_eq_false_2.
  - intros fname text Hname Hext Hblank. unfold rag_upload.
    apply nonempty_true in Hname. rewrite Hname. simpl.
    rewrite bool_decide_eq_true_2 by done. simpl.
    unfold try_except. by rewrite Hblank.
Qed.

Lemma rag_upload_refuses_witness :
  let w := World [] (fun _ => "") 0 [] in
  rag_upload default_config (Some ("photo.png", "data")) w
  = (Ok (upload_rejection "Unsupported file type. Use txt, md, csv, log, json, yaml, or yml."), w)
  /\ rag_upload default_config (Some ("notes.txt", "  ")) w
     = (Ok (upload_rejection "File is empty"), w).
Proof.
  intros w. split.
  - apply (proj1 (proj2 (proj2 (rag_upload_refuses default_config w)))).
    + discriminate.
    + apply (bool_decide_unpack _). vm_compute. reflexivity.
  - apply (proj2 (proj2 (proj2 (rag_upload_refuses default_config w)))).
    + discriminate.
    + apply (bool_decide_unpack _). vm_compute. reflexivity.
    + reflexivity.
Defined.

(** X28: an upload is stored whole or not at all.  For a file with an
    allowed extension and a content that is not blank, over a table with
    distinct identifiers: with new identifiers drawn, [rag_upload] answers
    200, [chunks_added] is the number of chunks of the content,
    [total_chunks] the number of rows before plus that number, and the
    table has gained exactly the rows of those chunks; with an identifier
    that is taken it answers 500 and the table is as before. *)
Theorem rag_upload_stores cfg fname text w :
  let chunks := chunk_text text (RAG_CHUNK_SIZE cfg) (RAG_CHUNK_OVERLAP cfg) in
  let n := length chunks in
  let fresh := NoDup (draws (uuid_feed w) (uuid_next w) n ++ map id (db w)) in
  fname <> "" -> extension fname ∈ allowed -> strip text <> "" ->
  NoDup (map id (db w)) ->
  (fresh ->
   exists w',
     rag_upload cfg (Some (fname, text)) w
     = (Ok (JObj [("success", JBool true);
                  ("filename", JStr fname);
                  ("chunks_added", JNum (Z.of_nat n));
                  ("total_chunks", JNum (Z.of_nat (length (db w) + n)))],
            200), w')
     /\ db w' = db w ++ rows_of fname 0 chunks (uuid_feed w) (uuid_next w))
  /\ (~ fresh ->
      exists w',
        rag_upload cfg (Some (fname, text)) w
        = (Ok (JObj [("success", JBool false);
                     ("error", JStr "Failed to process file")], 500), w')
        /\ db w' = db w).
Proof.
  intros chunks n fresh Hname Hext Htext Hkey.
  unfold rag_upload. apply nonempty_true in Hname. rewrite Hname. simpl.
  rewrite bool_decide_eq_true_2 by done. simpl.
  apply nonempty_true in Htext. rewrite Htext. simpl.
  unfold try_except. split.
  - intros Hfresh. unfold bind at 1.
    rewrite add_document_chunks_fresh by done. fold chunks. fold n.
    unfold bind at 1. rewrite rag_counts_run. unfold ret. simpl.
    assert (Hlen : length (db w ++ rows_of fname 0 chunks (uuid_feed w)
                                      (uuid_next w))
                   = (length (db w) + n)%nat).
    { rewrite length_app. by rewrite length_rows_of. }
    rewrite Hlen. eexists. split; reflexivity.
  - intros Hclash.
    destruct (add_document_chunks_clash cfg fname text w Hkey Hclash)
      as (w1 & Hrun & Hdb).
    unfold bind at 1. rewrite Hrun. unfold ret. by exists w1.
Qed.

Lemma rag_upload_stores_witness :
  let w := World [] (fun k => "u" +:+ str_of_int (Z.of_nat k)) 0 [] in
  exists w',
    rag_upload default_config (Some ("notes.md", "Rocq is a proof assistant")) w
    = (Ok (JObj [("success", JBool true);
                 ("filename", JStr "notes.md");
                 ("chunks_added", JNum 1);
                 ("total_chunks", JNum 1)], 200), w')
    /\ db w' = [ChunkRow "u0" "notes.md" 0 "Rocq is a proof assistant"
                  ["assistant"; "proof"; "rocq"]].
Proof.
  intros w.
  refine (proj1 (rag_upload_stores default_config "notes.md"
                   "Rocq is a proof assistant" w _ _ _ _) _).
  - discriminate.
  - apply (bool_decide_unpack _). vm_compute. reflexivity.
  - vm_compute. discriminate.
  - constructor.
  - apply (bool_decide_unpack _). vm_compute. reflexivity.
Defined.

Lemma existsb_is_str s names :
  existsb (is_str s) names = true -> JStr s ∈ names.
Proof.
  induction names as [|v names IH]; simpl; [done|].
  intros [Hv|Hn]%orb_true_iff.
  - destruct v as [| | |t| |]; try done. simpl in Hv.
    apply String.eqb_eq in Hv as ->. left.
  - right. by apply IH.
Qed.

(** X29: the configured model is always offered.  Whenever [models]
    returns, its status is 200, [default] is the configured model and the
    list contains it: alone when the model service failed, at the head of
    the service's names when they lack it, and where the service put it
    otherwise.  Only an exception that is not of the transport leaves
    it. *)
Theorem models_offers_default cfg t :
  (forall e, t = TagsRaises e -> is_request_exception e = false ->
     models cfg t = Raise e)
  /\ ((forall e, t = TagsRaises e -> is_request_exception e = true) ->
      exists names,
        models cfg t = Ok (models_payload cfg names)
        /\ JStr (OLLAMA_MODEL cfg) ∈ names
        /\ match t with
           | TagsRaises _ => names = [JStr (OLLAMA_MODEL cfg)]
           | TagsResponse status_code items =>
               if response_ok status_code
               then names = model_names items
                    \/ ((JStr (OLLAMA_MODEL cfg) ∉ model_names items)
                        /\ names = JStr (OLLAMA_MODEL cfg) :: model_names items)
               else names = [JStr (OLLAMA_MODEL cfg)]
           end).
Proof.
  split.
  - intros e -> He. simpl. by rewrite He.
  - intros Hreq. destruct t as [e|status_code items]; simpl.
    + rewrite (Hreq e eq_refl). eexists. split; [done|]. split; [left|done].
    + destruct (response_ok status_code); simpl.
      * destruct (existsb (is_str (OLLAMA_MODEL cfg)) (model_names items))
          eqn:Hin; simpl.
        -- eexists. split; [done|]. split; [by apply existsb_is_str|by left].
        -- eexists. split; [done|]. split; [left|]. right. split; [|done].
           intros Hel. apply not_true_iff_false in Hin. apply Hin.
           apply existsb_exists. exists (JStr (OLLAMA_MODEL cfg)).
           split; [by apply list_elem_of_In|]. simpl. apply String.eqb_refl.
      * eexists. split; [done|]. split; [left|done].
Qed.

Lemma models_offers_default_witness :
  let t := TagsResponse 200 [[("name", JStr "mistral:7b")];
                             [("size", JNum 3)]] in
  models default_config t
  = Ok (models_payload default_config
          [JStr "llama3.2:1b"; JStr "mistral:7b"]).
Proof.
  intros t.
  destruct (proj2 (models_offers_default default_config t)) as (names & Hrun & _ & Hnames).
  - intros e. discriminate.
  - simpl in Hnames. destruct Hnames as [->|[_ ->]]; [|exact Hrun].
    vm_compute in Hrun. discriminate Hrun.
Defined.

End upload_facts.

(** ** Instances *)

Section instances.
Import Py Chunker Orchestrator Notions RequestBody MoreNotions.

Lemma chunk_text_chunks_witness :
  Forall (fun c => infix_of c "ab  cdefg" /\ c <> "" /\ strip c = c
                   /\ (0 <= 4 -> len c <= 4))
    (chunk_text "ab  cdefg" 4 1)
  /\ chunk_text "ab  cdefg" 4 1 = ["ab"; "cde"; "efg"].
Proof.
  split; [exact (chunk_text_chunks "ab  cdefg" 4 1)|reflexivity].
Defined.

Lemma chat_always_answers_witness :
  let out := Outside (GoogleRaises RequestTimeout) (OllamaRaises RequestTimeout) in
  let w := World [] (fun _ => "") 0 [] in
  chat_endpoint default_config out (JObj [("history", JArr [])]) w
  = (Ok no_message_response, w)
  /\ chat_endpoint default_config out (JArr [JStr "message"]) w
     = (Ok failure_response, w).
Proof.
  intros out w. split.
  - destruct (chat_always_answers default_config out
                (JObj [("history", JArr [])]) w)
      as (body & status & w' & Hrun & _ & Hmissing & _).
    destruct (Hmissing (or_intror eq_refl)) as (<- & ->). exact Hrun.
  - destruct (chat_always_answers default_config out
                (JArr [JStr "message"]) w)
      as (body & status & w' & Hrun & _ & _ & Hfails).
    destruct Hfails as (<- & ->);
      [intros fields; discriminate|reflexivity|discriminate|].
    exact Hrun.
Defined.

End instances.
